(** * Verification of [scripts/keep_alive.py]

    A shallow embedding of the Zeabur keep-alive script: the cookie codec
    ([parse_cookies], [format_cookies]), the Telegram notifier, the GitHub
    secret publisher, the cookie login loop and [main].

    Python strings are sequences of Unicode code points; they are modelled
    as lists of code points ([N]).  Code that may raise returns an
    [outcome]; code that talks to the outside world threads a [World]. *)

From Stdlib Require Import List ZArith NArith Lia Bool Arith String Ascii.
From Stdlib Require Import Permutation DecimalString.
Import ListNotations.

(** ** Python strings *)

Module PyStr.

Definition char := N.
Definition pystr := list char.

(** An ASCII literal of the source, as code points. *)
Definition lit (s : string) : pystr :=
  map N_of_ascii (list_ascii_of_string s).

Definition ch (a : ascii) : char := N_of_ascii a.

(** Code points of UTF-8 bytes; a truncated sequence ends the text. *)
Fixpoint utf8_decode (bs : list N) : pystr :=
  (match bs with
   | [] => []
   | b :: t =>
       if b <? 128 then b :: utf8_decode t
       else if b <? 224 then
         match t with
         | c1 :: t1 => ((b - 192) * 64 + (c1 - 128)) :: utf8_decode t1
         | _ => []
         end
       else if b <? 240 then
         match t with
         | c1 :: c2 :: t2 =>
             ((b - 224) * 4096 + (c1 - 128) * 64 + (c2 - 128))
               :: utf8_decode t2
         | _ => []
         end
       else
         match t with
         | c1 :: c2 :: c3 :: t3 =>
             ((b - 240) * 262144 + (c1 - 128) * 4096 + (c2 - 128) * 64
              + (c3 - 128)) :: utf8_decode t3
         | _ => []
         end
   end)%N.

(** A literal of the source that is not ASCII only. *)
Definition text (s : string) : pystr := utf8_decode (lit s).

(** [str.isspace] on one code point, which is what [str.strip()] removes:
    CPython's [Py_UNICODE_ISSPACE]. *)
Definition is_space (c : char) : bool :=
  (((9 <=? c) && (c <=? 13)) || ((28 <=? c) && (c <=? 32))
   || (c =? 133) || (c =? 160) || (c =? 5760)
   || ((8192 <=? c) && (c <=? 8202))
   || (c =? 8232) || (c =? 8233) || (c =? 8239) || (c =? 8287)
   || (c =? 12288))%N.

(** [s.lstrip()] *)
Fixpoint lstrip (s : pystr) : pystr :=
  match s with
  | [] => []
  | c :: t => if is_space c then lstrip t else s
  end.

(** [s.rstrip()] *)
Definition rstrip (s : pystr) : pystr := rev (lstrip (rev s)).

(** [s.strip()]: the slice between the first and the last character that
    is not whitespace. *)
Definition strip (s : pystr) : pystr := rstrip (lstrip s).

(** Puts [c] in front of the first piece of a split. *)
Definition cons_first (c : char) (ps : list pystr) : list pystr :=
  match ps with
  | [] => [[c]]
  | p :: ps' => (c :: p) :: ps'
  end.

(** [s.split(sep)] for a separator of one character (the source splits on
    [';'] and ['/'] only). *)
Fixpoint split (sep : char) (s : pystr) : list pystr :=
  match s with
  | [] => [[]]
  | c :: t =>
      if (c =? sep)%N then [] :: split sep t
      else cons_first c (split sep t)
  end.

(** [s.split(sep, maxsplit)] for a separator of one character: at most
    [maxsplit] cuts, from the left. *)
Fixpoint split_max (sep : char) (maxsplit : nat) (s : pystr) {struct s}
  : list pystr :=
  match maxsplit, s with
  | O, _ => [s]
  | _, [] => [[]]
  | S m, c :: t =>
      if (c =? sep)%N then [] :: split_max sep m t
      else cons_first c (split_max sep maxsplit t)
  end.

(** [sep.join(items)] *)
Fixpoint join (sep : pystr) (items : list pystr) : pystr :=
  match items with
  | [] => []
  | [x] => x
  | x :: rest => x ++ sep ++ join sep rest
  end.

Fixpoint starts_with (p s : pystr) : bool :=
  match p, s with
  | [], _ => true
  | _ :: _, [] => false
  | a :: p', b :: s' => (a =? b)%N && starts_with p' s'
  end.

(** [needle in hay] *)
Fixpoint contains (needle hay : pystr) : bool :=
  starts_with needle hay ||
  match hay with
  | [] => false
  | _ :: t => contains needle t
  end.

(** [str(n)] of an integer. *)
Definition str_of_int (n : Z) : pystr :=
  lit (NilZero.string_of_int (Z.to_int n)).

(** Truth value of a string: the empty string is false. *)
Definition truthy (s : pystr) : bool :=
  match s with [] => false | _ :: _ => true end.

(** Truth value of a value that may be [None]. *)
Definition truthy_opt (o : option pystr) : bool :=
  match o with None => false | Some s => truthy s end.

End PyStr.
Import PyStr.

(** ** Exceptions *)

(** [except Exception] catches an [Exception]; [sys.exit] raises
    [SystemExit], which it does not catch. *)
Inductive exn : Type :=
| Exception (msg : pystr)
| SystemExit (code : Z).

Inductive outcome (A : Type) : Type :=
| Return (a : A)
| Raise (e : exn).
Arguments Return {A} a.
Arguments Raise {A} e.

Definition obind {A B} (m : outcome A) (k : A -> outcome B) : outcome B :=
  match m with
  | Return a => k a
  | Raise e => Raise e
  end.

(** [l[i]]: raises [IndexError] out of range (the source only uses
    indices that are not negative). *)
Definition getitem {A} (l : list A) (i : nat) : outcome A :=
  match nth_error l i with
  | Some a => Return a
  | None => Raise (Exception (lit "list index out of range"))
  end.

(** ** Cookie codec *)

Module Codec.

(** A cookie as Playwright has it; [domain] may be missing from the
    dictionary, which [c.get('domain', '')] allows for. *)
Record Cookie : Type := mkCookie {
  name : pystr;
  value : pystr;
  domain : option pystr;
  path : pystr
}.

Definition get_domain (c : Cookie) : pystr :=
  match domain c with
  | Some d => d
  | None => []
  end.

(** The body of the [for cookie in cookie_string.split(';')] loop, with
    the list [cookies] it appends to. *)
Fixpoint parse_segments (segs : list pystr) (cookies : list Cookie)
  : outcome (list Cookie) :=
  match segs with
  | [] => Return cookies
  | cookie :: rest =>
      let parts := split_max (ch "=") 1 (strip cookie) in
      if Nat.eqb (List.length parts) 2 then
        obind (getitem parts 0) (fun p0 =>
        obind (getitem parts 1) (fun p1 =>
        parse_segments rest
          (cookies ++ [mkCookie (strip p0) (strip p1)
                                (Some (lit ".zeabur.com")) (lit "/")])))
      else parse_segments rest cookies
  end.

Definition parse_cookies (cookie_string : pystr) : outcome (list Cookie) :=
  parse_segments (split (ch ";") cookie_string) [].

(** ['zeabur.com' in c.get('domain', '')] *)
Definition in_target (c : Cookie) : bool :=
  contains (lit "zeabur.com") (get_domain c).

(** [f"{c['name']}={c['value']}"] *)
Definition pair_text (c : Cookie) : pystr :=
  name c ++ lit "=" ++ value c.

Definition format_cookies (cookies : list Cookie) : pystr :=
  join (lit "; ") (map pair_text (filter in_target cookies)).

End Codec.
Import Codec.


(** ** The outside world *)

Module Effects.

Definition Page := nat.

Inductive Context : Type := BrowserContext.
Inductive Browser : Type := Chromium.

(** What [page.goto] does: it raises, or the page ends on [url] once the
    settle delay is over. *)
Inductive NavOutcome : Type :=
| NavError (msg : pystr)
| Landed (url : pystr).

(** A JSON object with string members, as the dictionary [json()] makes
    of it: each key once. *)
Definition Json := list (pystr * pystr).

(** What [json()] makes of the body of a response: the dictionary, or
    the message of the exception it raises for a body that is no JSON. *)
Inductive Body : Type :=
| JsonObject (members : Json)
| NotJson (error : pystr).

Record Response : Type := mkResponse {
  status_code : Z;
  reason : pystr;       (* response.reason, the reason phrase *)
  final_url : pystr;    (* response.url *)
  body : Body
}.

(** What [requests.get/post/put] does: it raises (connection error,
    timeout), or a response comes back. *)
Inductive HttpOutcome : Type :=
| NetworkError (msg : pystr)
| Answered (r : Response).

Inductive Method : Type := GET | POST | PUT.

Inductive Payload : Type :=
| NoBody
| JsonBody (members : Json)
| Multipart (data : list (pystr * pystr)) (files : list (pystr * pystr)).

Record Request : Type := mkRequest {
  method : Method;
  url : pystr;
  headers : list (pystr * pystr);
  payload : Payload;
  timeout : Z
}.

Inductive Event : Type :=
| EPrint (line : pystr)
| EStartPlaywright
| EStopPlaywright
| ELaunch
| ENewContext
| ECloseBrowser
| EAddCookies (cookies : list Cookie)
| ENewPage (p : Page)
| EGoto (p : Page) (target : pystr)
| EWait (p : Page) (ms : Z)
| EClosePage (p : Page)
| EScreenshot (p : Page) (file : pystr)
| EReadCookies
| ESleep (secs : Z)
| EOpenFile (file : pystr)
| ECloseFile (file : pystr)
| EHttp (r : Request).

(** What sealing a value for a public key gives (lines 70 to 73: base64,
    [PublicKey], [SealedBox.encrypt]): the ciphertext in base64, or the
    message of the exception. *)
Inductive Sealing : Type :=
| Sealed (ciphertext : pystr)
| SealError (msg : pystr).

(** What the environment will do; no operation changes it. *)
Record Script : Type := mkScript {
  environ : pystr -> option pystr;   (* os.environ *)
  navigation : nat -> NavOutcome;    (* the k-th page.goto *)
  http : nat -> HttpOutcome;         (* the k-th HTTP request *)
  fault : nat -> option pystr;       (* the k-th browser or file call:
                                        the message it raises with *)
  jar : list Cookie;                 (* what context.cookies() reads *)
  sealed : pystr -> pystr -> Sealing; (* sealed-box encryption *)
  clock : pystr                      (* datetime.now().strftime(...) *)
}.

Record World : Type := mkWorld {
  script : Script;
  navs : nat;                 (* page.goto calls so far *)
  reqs : nat;                 (* HTTP requests so far *)
  calls : nat;                (* browser and file calls so far *)
  next_page : Page;           (* the next fresh page handle *)
  open_pages : list Page;     (* pages opened and not closed *)
  location : Page -> pystr;   (* page.url *)
  trace : list Event          (* what happened, oldest first *)
}.

Definition log (e : Event) (w : World) : World :=
  mkWorld (script w) (navs w) (reqs w) (calls w) (next_page w)
          (open_pages w) (location w) (trace w ++ [e]).

Definition tick_call (w : World) : World :=
  mkWorld (script w) (navs w) (reqs w) (S (calls w)) (next_page w)
          (open_pages w) (location w) (trace w).

Definition tick_nav (w : World) : World :=
  mkWorld (script w) (S (navs w)) (reqs w) (calls w) (next_page w)
          (open_pages w) (location w) (trace w).

Definition tick_req (w : World) : World :=
  mkWorld (script w) (navs w) (S (reqs w)) (calls w) (next_page w)
          (open_pages w) (location w) (trace w).

Definition opened (p : Page) (w : World) : World :=
  mkWorld (script w) (navs w) (reqs w) (calls w) (S p)
          (p :: open_pages w) (location w) (trace w).

Definition closed (p : Page) (w : World) : World :=
  mkWorld (script w) (navs w) (reqs w) (calls w) (next_page w)
          (filter (fun q => negb (Nat.eqb q p)) (open_pages w))
          (location w) (trace w).

Definition moved (p : Page) (u : pystr) (w : World) : World :=
  mkWorld (script w) (navs w) (reqs w) (calls w) (next_page w)
          (open_pages w)
          (fun q => if Nat.eqb q p then u else location w q) (trace w).

(** A computation: it ends with a value or an exception, in a new world. *)
Definition M (A : Type) : Type := World -> outcome A * World.

Definition ret {A} (a : A) : M A := fun w => (Return a, w).

Definition raise {A} (e : exn) : M A := fun w => (Raise e, w).

Definition bind {A B} (m : M A) (k : A -> M B) : M B :=
  fun w =>
    match m w with
    | (Return a, w') => k a w'
    | (Raise e, w') => (Raise e, w')
    end.

Definition lift {A} (o : outcome A) : M A := fun w => (o, w).

(** [try: m  except Exception as e: handler(str(e))] *)
Definition try_except {A} (m : M A) (handler : pystr -> M A) : M A :=
  fun w =>
    match m w with
    | (Raise (Exception msg), w') => handler msg w'
    | r => r
    end.

(** [try: m  finally: cleanup]; an exception of [cleanup] replaces the
    outcome of [m]. *)
Definition try_finally {A} (m : M A) (cleanup : M unit) : M A :=
  fun w =>
    match m w with
    | (r, w') =>
        match cleanup w' with
        | (Return _, w'') => (r, w'')
        | (Raise e, w'') => (Raise e, w'')
        end
    end.

(** [with enter as x: block x], where leaving runs [leave]. *)
Definition with_ {A B} (enter : M A) (leave : M unit) (block : A -> M B)
  : M B :=
  bind enter (fun x => try_finally (block x) leave).

(** [for x in items: body x], then [after]; [body] gives [Some v] where
    the source has [return v] inside the loop. *)
Fixpoint for_ {A R} (items : list A) (body : A -> M (option R))
  (after : M R) : M R :=
  match items with
  | [] => after
  | x :: rest =>
      bind (body x) (fun r =>
        match r with
        | Some v => ret v
        | None => for_ rest body after
        end)
  end.

(** [range(n)] *)
Definition range (n : Z) : list Z :=
  map Z.of_nat (seq 0 (Z.to_nat n)).

Definition emit (e : Event) : M unit := fun w => (Return tt, log e w).

Definition print (line : pystr) : M unit := emit (EPrint line).

(** [sys.exit(code)] *)
Definition sys_exit {A} (code : Z) : M A := raise (SystemExit code).

(** A call into the browser or the file system: it is recorded, and it
    raises when the script has a fault for it. *)
Definition external (e : Event) : M unit :=
  fun w =>
    let w' := log e (tick_call w) in
    match fault (script w) (calls w) with
    | Some msg => (Raise (Exception msg), w')
    | None => (Return tt, w')
    end.

Definition start_playwright : M unit := external EStartPlaywright.
Definition stop_playwright : M unit := external EStopPlaywright.

Definition launch : M Browser :=
  bind (external ELaunch) (fun _ => ret Chromium).

Definition new_context (b : Browser) : M Context :=
  bind (external ENewContext) (fun _ => ret BrowserContext).

Definition close_browser (b : Browser) : M unit := external ECloseBrowser.

Definition add_cookies (c : Context) (cookies : list Cookie) : M unit :=
  external (EAddCookies cookies).

(** [context.new_page()]: a fresh handle. *)
Definition new_page (c : Context) : M Page :=
  fun w =>
    let p := next_page w in
    match external (ENewPage p) w with
    | (Return _, w') => (Return p, opened p w')
    | (Raise e, w') => (Raise e, w')
    end.

(** [page.goto(url, wait_until='networkidle')] *)
Definition goto (p : Page) (target : pystr) : M unit :=
  fun w =>
    let w' := log (EGoto p target) (tick_nav w) in
    match navigation (script w) (navs w) with
    | NavError msg => (Raise (Exception msg), w')
    | Landed u => (Return tt, moved p u w')
    end.

Definition wait_for_timeout (p : Page) (ms : Z) : M unit :=
  external (EWait p ms).

(** [page.url] *)
Definition page_url (p : Page) : M pystr :=
  fun w => (Return (location w p), w).

(** [page.close()] *)
Definition close_page (p : Page) : M unit :=
  fun w =>
    match external (EClosePage p) w with
    | (Return _, w') => (Return tt, closed p w')
    | (Raise e, w') => (Raise e, w')
    end.

Definition screenshot (p : Page) (file : pystr) : M unit :=
  external (EScreenshot p file).

(** [context.cookies()] *)
Definition context_cookies (c : Context) : M (list Cookie) :=
  bind (external EReadCookies) (fun _ => fun w => (Return (jar (script w)), w)).

(** [time.sleep(secs)] *)
Definition sleep (secs : Z) : M unit := emit (ESleep secs).

(** [open(file, 'rb')] *)
Definition open_rb (file : pystr) : M pystr :=
  bind (external (EOpenFile file)) (fun _ => ret file).

Definition close_file (file : pystr) : M unit := emit (ECloseFile file).

(** [requests.request(...)]: one HTTP request. *)
Definition request (r : Request) : M Response :=
  fun w =>
    let w' := log (EHttp r) (tick_req w) in
    match http (script w) (reqs w) with
    | NetworkError msg => (Raise (Exception msg), w')
    | Answered resp => (Return resp, w')
    end.

(** The message of the [HTTPError] of the requests library: the status,
    the kind of error, the reason phrase and the URL of the response. *)
Definition http_error_msg (r : Response) : pystr :=
  str_of_int (status_code r)
  ++ (if (status_code r <? 500)%Z then lit " Client Error: "
      else lit " Server Error: ")
  ++ reason r ++ lit " for url: " ++ final_url r.

(** [response.raise_for_status()] of the requests library: [HTTPError]
    for a client error (4xx) or a server error (5xx). *)
Definition raise_for_status (r : Response) : M unit :=
  if ((400 <=? status_code r) && (status_code r <? 600))%Z
  then raise (Exception (http_error_msg r))
  else ret tt.

(** [response.json()] *)
Definition json (r : Response) : M Json :=
  match body r with
  | JsonObject j => ret j
  | NotJson error => raise (Exception error)
  end.

Fixpoint lookup (key : pystr) (d : Json) : option pystr :=
  match d with
  | [] => None
  | (k, v) :: rest =>
      if list_eq_dec N.eq_dec k key then Some v else lookup key rest
  end.

(** [d[key]] on a dictionary; the message of a [KeyError] is the key
    as [repr] writes it, which for a key without quotes and escapes is
    the key between single quotes. *)
Definition dict_get (d : Json) (key : pystr) : M pystr :=
  match lookup key d with
  | Some v => ret v
  | None => raise (Exception (lit "'" ++ key ++ lit "'"))
  end.

(** [os.environ.get(key)] *)
Definition environ_get (key : pystr) : M (option pystr) :=
  fun w => (Return (environ (script w) key), w).

(** [datetime.now().strftime('%Y-%m-%d %H:%M:%S')] *)
Definition now_text : M pystr := fun w => (Return (clock (script w)), w).

(** Lines 70 to 73: the value sealed for the repository's public key. *)
Definition seal (key plaintext : pystr) : M pystr :=
  fun w =>
    match sealed (script w) key plaintext with
    | Sealed ciphertext => (Return ciphertext, w)
    | SealError msg => (Raise (Exception msg), w)
    end.

End Effects.
Import Effects.

Declare Scope py_scope.
Delimit Scope py_scope with py.
Notation "x <- m ;; k" := (bind m (fun x => k))
  (at level 61, m at next level, right associativity) : py_scope.
Notation "m ;; k" := (bind m (fun _ => k))
  (at level 61, right associativity) : py_scope.
Open Scope py_scope.

(** ** The script *)

Module KeepAlive.

Definition ZEABUR_DASHBOARD_URL : pystr := lit "https://zeabur.com/projects".
Definition SCREENSHOT_PATH : pystr := lit "/tmp/zeabur_dashboard.png".

Definition nl : pystr := [10%N].

(** *** Telegram *)

Definition send_telegram_message (bot_token chat_id message : pystr)
  : M bool :=
  let url := lit "https://api.telegram.org/bot" ++ bot_token
             ++ lit "/sendMessage" in
  try_except
    (response <- request
        (mkRequest POST url []
           (JsonBody [(lit "chat_id", chat_id);
                      (lit "text", message);
                      (lit "parse_mode", lit "HTML")])
           30) ;;
     raise_for_status response ;;
     ret true)
    (fun e =>
       print (text "Telegram 消息发送失败: " ++ e) ;;
       ret false).

Definition send_telegram_photo (bot_token chat_id photo_path caption : pystr)
  : M bool :=
  let url := lit "https://api.telegram.org/bot" ++ bot_token
             ++ lit "/sendPhoto" in
  try_except
    (with_ (open_rb photo_path) (close_file photo_path) (fun photo =>
       response <- request
          (mkRequest POST url []
             (Multipart [(lit "chat_id", chat_id); (lit "caption", caption)]
                        [(lit "photo", photo)])
             60) ;;
       raise_for_status response) ;;
     ret true)
    (fun e =>
       print (text "Telegram 图片发送失败: " ++ e) ;;
       ret false).

(** *** GitHub secret *)

Definition update_github_secret
  (token owner repo secret_name secret_value : pystr) : M unit :=
  let headers :=
    [(lit "Authorization", lit "Bearer " ++ token);
     (lit "Accept", lit "application/vnd.github+json");
     (lit "X-GitHub-Api-Version", lit "2022-11-28")] in
  let key_url := lit "https://api.github.com/repos/" ++ owner ++ lit "/"
                 ++ repo ++ lit "/actions/secrets/public-key" in
  key_response <- request (mkRequest GET key_url headers NoBody 30) ;;
  raise_for_status key_response ;;
  key_data <- json key_response ;;
  public_key <- dict_get key_data (lit "key") ;;
  encrypted_value <- seal public_key secret_value ;;
  let update_url := lit "https://api.github.com/repos/" ++ owner ++ lit "/"
                    ++ repo ++ lit "/actions/secrets/" ++ secret_name in
  key_id <- dict_get key_data (lit "key_id") ;;
  put_response <- request
     (mkRequest PUT update_url headers
        (JsonBody [(lit "encrypted_value", encrypted_value);
                   (lit "key_id", key_id)])
        30) ;;
  raise_for_status put_response.

(** *** Login *)

(** One round of the [for attempt in range(max_retries + 1)] loop:
    [Some (page, True)] where the source returns, [None] where the loop
    goes on. *)
Definition attempt_body (context : Context) (max_retries : Z) (attempt : Z)
  : M (option (Page * bool)) :=
  page <- new_page context ;;
  found <- try_except
    (goto page ZEABUR_DASHBOARD_URL ;;
     wait_for_timeout page 3000 ;;
     u <- page_url page ;;
     if negb (contains (lit "/login") u) then
       print (text "✅ Cookie 登录成功 (第 " ++ str_of_int (attempt + 1)
              ++ text " 次尝试)") ;;
       ret (Some (page, true))
     else
       print (text "⚠️ Cookie 第 " ++ str_of_int (attempt + 1)
              ++ text " 次尝试失败，页面跳转到登录页") ;;
       close_page page ;;
       ret None)
    (fun e =>
       print (text "⚠️ Cookie 第 " ++ str_of_int (attempt + 1)
              ++ text " 次尝试异常: " ++ e) ;;
       close_page page ;;
       ret None) ;;
  match found with
  | Some r => ret (Some r)
  | None =>
      (if (attempt <? max_retries)%Z then
         let wait := (5 * (attempt + 1))%Z in
         print (text "⏳ 等待 " ++ str_of_int wait ++ text " 秒后重试...") ;;
         sleep wait
       else ret tt) ;;
      ret None
  end.

Definition login_with_cookie (context : Context) (cookie_string : pystr)
  (max_retries : Z) : M (Page * bool) :=
  print (text "🍪 尝试 Cookie 登录...") ;;
  cookies <- lift (parse_cookies cookie_string) ;;
  add_cookies context cookies ;;
  for_ (range (max_retries + 1)) (attempt_body context max_retries)
    (print (text "❌ Cookie 已过期") ;;
     page <- new_page context ;;
     ret (page, false)).

(** *** Main *)

(** The value of a variable known not to be [None] where it is used. *)
Definition the (o : option pystr) : pystr :=
  match o with Some s => s | None => [] end.

(** [owner, repo_name = parts], with the messages of the [ValueError]
    of CPython up to 3.13. *)
Definition unpack2 (parts : list pystr) : M (pystr * pystr) :=
  match parts with
  | [a; b] => ret (a, b)
  | [] | [_] =>
      raise (Exception
               (lit "not enough values to unpack (expected 2, got "
                ++ str_of_int (Z.of_nat (List.length parts)) ++ lit ")"))
  | _ => raise (Exception (lit "too many values to unpack (expected 2)"))
  end.

(** Lines 178 to 183 of [main]: the refreshed cookie goes to the
    repository secret; the result is [logs] after it. *)
Definition refresh_secret (repo_token : option pystr)
  (repo new_cookie_string : pystr) (logs : list pystr) : M (list pystr) :=
  if truthy_opt repo_token && truthy repo && truthy new_cookie_string then
    print (text "🔄 正在更新 Cookie...") ;;
    names <- unpack2 (split (ch "/") repo) ;;
    update_github_secret (the repo_token) (fst names) (snd names)
      (lit "ZEABUR_COOKIE") new_cookie_string ;;
    print (text "✅ GitHub Secret ZEABUR_COOKIE 已更新") ;;
    ret (logs ++ [text "✅ 已自动更新 ZEABUR_COOKIE"])
  else ret logs.

(** Lines 186 to 203 of [main]: the Telegram report. *)
Definition notify (tg_bot_token tg_chat_id : option pystr) (now : pystr)
  (logs : list pystr) : M unit :=
  if truthy_opt tg_bot_token && truthy_opt tg_chat_id then
    print (text "📤 正在发送 Telegram 通知...") ;;
    let message :=
      text "🟢 <b>Zeabur 自动登录</b>" ++ nl ++ nl
      ++ text "状态: ✅ 成功" ++ nl
      ++ text "时间: " ++ now ++ nl ++ nl
      ++ text "<b>日志:</b>" ++ nl
      ++ join nl logs in
    msg_sent <- send_telegram_message (the tg_bot_token) (the tg_chat_id)
                  message ;;
    photo_sent <- send_telegram_photo (the tg_bot_token) (the tg_chat_id)
                    SCREENSHOT_PATH (text "Zeabur 控制台截图") ;;
    if msg_sent && photo_sent then
      print (text "✅ Telegram 通知已发送")
    else
      print (text "⚠️ Telegram 通知部分失败")
  else
    print (text "⚠️ TG_BOT_TOKEN 或 TG_CHAT_ID 未设置，跳过 Telegram 通知").

(** Lines 166 to 203 of [main]: what follows a successful login. *)
Definition report (context : Context) (page : Page)
  (repo_token : option pystr) (repo : pystr)
  (tg_bot_token tg_chat_id : option pystr) : M unit :=
  now <- now_text ;;
  print (text "✅ 登录成功！" ++ nl ++ text "⏰ 执行时间: " ++ now) ;;
  screenshot page SCREENSHOT_PATH ;;
  print (text "📸 截图已保存") ;;
  let logs := [text "✅ 已访问: 控制台 (" ++ ZEABUR_DASHBOARD_URL
               ++ lit ")"] in
  jar_now <- context_cookies context ;;
  let new_cookie_string := format_cookies jar_now in
  logs <- refresh_secret repo_token repo new_cookie_string logs ;;
  notify tg_bot_token tg_chat_id now logs.

(** Lines 159 to 164 of [main]: the login failed. *)
Definition login_failed (tg_bot_token tg_chat_id : option pystr) : M unit :=
  let error_msg := text "❌ Cookie 登录失败" ++ nl
                   ++ text "💡 请更新 ZEABUR_COOKIE" in
  print error_msg ;;
  (if truthy_opt tg_bot_token && truthy_opt tg_chat_id then
     _ <- send_telegram_message (the tg_bot_token) (the tg_chat_id)
            error_msg ;;
     ret tt
   else ret tt) ;;
  sys_exit 1.

(** The [try] block of [main]. *)
Definition session (context : Context)
  (cookie_string repo_token : option pystr) (repo : pystr)
  (tg_bot_token tg_chat_id : option pystr) : M unit :=
  r <- login_with_cookie context (the cookie_string) 2 ;;
  let page := fst r in
  let login_success := snd r in
  (if negb login_success then login_failed tg_bot_token tg_chat_id
   else ret tt) ;;
  report context page repo_token repo tg_bot_token tg_chat_id.

(** The [except Exception as e] clause of [main]. *)
Definition on_error (tg_bot_token tg_chat_id : option pystr) (e : pystr)
  : M unit :=
  let error_msg := text "❌ 执行失败: " ++ e in
  print error_msg ;;
  (if truthy_opt tg_bot_token && truthy_opt tg_chat_id then
     _ <- send_telegram_message (the tg_bot_token) (the tg_chat_id)
            error_msg ;;
     ret tt
   else ret tt) ;;
  sys_exit 1.

Definition main : M unit :=
  cookie_string <- environ_get (lit "ZEABUR_COOKIE") ;;
  repo_token <- environ_get (lit "REPO_TOKEN") ;;
  repo_opt <- environ_get (lit "GITHUB_REPOSITORY") ;;
  let repo := the repo_opt in
  tg_bot_token <- environ_get (lit "TG_BOT_TOKEN") ;;
  tg_chat_id <- environ_get (lit "TG_CHAT_ID") ;;
  (if negb (truthy_opt cookie_string) then
     print (text "❌ 错误: ZEABUR_COOKIE 未设置") ;;
     sys_exit 1
   else ret tt) ;;
  print (text "🚀 启动浏览器...") ;;
  with_ start_playwright stop_playwright (fun _ =>
    browser <- launch ;;
    context <- new_context browser ;;
    try_finally
      (try_except
         (session context cookie_string repo_token repo
                  tg_bot_token tg_chat_id)
         (on_error tg_bot_token tg_chat_id))
      (close_browser browser)).

(** The exit status of the process that runs [main()]: 0 when it returns,
    the code of [sys.exit], 1 for an exception nobody caught. *)
Definition exit_status (r : outcome unit) : Z :=
  match r with
  | Return _ => 0
  | Raise (SystemExit code) => code
  | Raise (Exception _) => 1
  end.

Definition run (w : World) : Z * World :=
  let r := main w in (exit_status (fst r), snd r).

End KeepAlive.
Import KeepAlive.

(** ** Vocabulary of the properties *)

Module Vocabulary.

(** No whitespace at the left end. *)
Definition starts_clean (s : pystr) : bool :=
  match s with
  | [] => true
  | c :: _ => negb (is_space c)
  end.

(** No whitespace at the right end. *)
Definition ends_clean (s : pystr) : bool := starts_clean (rev s).

(** The text before the first [sep]. *)
Fixpoint before (sep : char) (s : pystr) : pystr :=
  match s with
  | [] => []
  | c :: t => if (c =? sep)%N then [] else c :: before sep t
  end.

(** The text after the first [sep]. *)
Fixpoint after (sep : char) (s : pystr) : pystr :=
  match s with
  | [] => []
  | c :: t => if (c =? sep)%N then t else after sep t
  end.

(** Decoding as the specification words it: a piece that lacks an ['=']
    gives nothing; another piece is cut at its first ['='] and gives one
    record of the target domain and the root path.  The whitespace
    around the piece, the name and the value goes, as in the code. *)
Definition decode_piece (piece : pystr) : list Cookie :=
  if contains (lit "=") piece then
    [mkCookie (strip (before (ch "=") (strip piece)))
              (strip (after (ch "=") (strip piece)))
              (Some (lit ".zeabur.com")) (lit "/")]
  else [].

Definition decode_spec (raw : pystr) : list Cookie :=
  flat_map decode_piece (split (ch ";") raw).

(** A cookie that the header syntax can carry: no [';'] in it, no ['=']
    in the name, no whitespace around the name or the value. *)
Definition header_safe (c : Cookie) : Prop :=
  contains (lit ";") (name c) = false /\
  contains (lit "=") (name c) = false /\
  contains (lit ";") (value c) = false /\
  strip (name c) = name c /\
  strip (value c) = value c.

Definition name_value (c : Cookie) : pystr * pystr := (name c, value c).

(** The record [parse_cookies] makes of a name and a value. *)
Definition retarget (c : Cookie) : Cookie :=
  mkCookie (name c) (value c) (Some (lit ".zeabur.com")) (lit "/").


(** *** The outside world *)

(** [w'] is [w] after the events [d]. *)
Definition extends (w w' : World) (d : list Event) : Prop :=
  trace w' = trace w ++ d.

(** The browser and the file system never raise. *)
Definition healthy (w : World) : Prop :=
  forall k, fault (script w) k = None.

(** No open page has a handle that [new_page] is yet to give. *)
Definition fresh_handles (w : World) : Prop :=
  Forall (fun q => q < next_page w) (open_pages w).

(** A navigation that does not show the dashboard: it raises, or the
    page ends on a URL with ['/login'] in it. *)
Definition rejected (o : NavOutcome) : bool :=
  match o with
  | NavError _ => true
  | Landed u => contains (lit "/login") u
  end.

(** An HTTP request after which [raise_for_status] does not return: it
    raised itself, or the status is a 4xx or a 5xx. *)
Definition http_failed (o : HttpOutcome) : bool :=
  match o with
  | NetworkError _ => true
  | Answered r => ((400 <=? status_code r) && (status_code r <? 600))%Z
  end.

(** An HTTP request that is not answered with a 2xx status. *)
Definition not_2xx (o : HttpOutcome) : bool :=
  match o with
  | NetworkError _ => true
  | Answered r =>
      negb ((200 <=? status_code r) && (status_code r <? 300))%Z
  end.

(** What counts for the retry policy in a trace: a navigation is an
    attempt, a sleep is a pause. *)
Inductive Tick : Type :=
| Attempt
| Pause (secs : Z).

Fixpoint timeline (d : list Event) : list Tick :=
  match d with
  | [] => []
  | EGoto _ _ :: rest => Attempt :: timeline rest
  | ESleep secs :: rest => Pause secs :: timeline rest
  | _ :: rest => timeline rest
  end.

(** The ticks of attempt number [attempt] (from 0) when it fails. *)
Definition round (max_retries attempt : Z) : list Tick :=
  Attempt ::
  (if (attempt <? max_retries)%Z then [Pause (5 * (attempt + 1))] else []).

(** The ticks of a login in which every attempt fails. *)
Definition schedule (max_retries : Z) : list Tick :=
  flat_map (round max_retries) (range (max_retries + 1)).

(** A computation that adds no tick to the timeline, keeps the script
    and never leaves by [sys.exit]. *)
Definition quiet {R} (after : M R) : Prop :=
  forall w,
    (exists d, extends w (snd (after w)) d /\ timeline d = []) /\
    script (snd (after w)) = script w /\
    (forall code, fst (after w) <> Raise (SystemExit code)).

(** The pages closed in a trace. *)
Fixpoint closed_in (d : list Event) : list Page :=
  match d with
  | [] => []
  | EClosePage p :: rest => p :: closed_in rest
  | _ :: rest => closed_in rest
  end.

(** The pages open after a trace, when [n] were open before it. *)
Fixpoint open_after (n : nat) (d : list Event) : nat :=
  match d with
  | [] => n
  | ENewPage _ :: rest => open_after (S n) rest
  | EClosePage _ :: rest => open_after (Nat.pred n) rest
  | _ :: rest => open_after n rest
  end.

(** The most pages open at one time along a trace, when [n] were open
    before it. *)
Fixpoint most_open (n : nat) (d : list Event) : nat :=
  match d with
  | [] => n
  | ENewPage _ :: rest => Nat.max n (most_open (S n) rest)
  | EClosePage _ :: rest => Nat.max n (most_open (Nat.pred n) rest)
  | _ :: rest => most_open n rest
  end.

(** The HTTP requests of a trace. *)
Fixpoint requests_in (d : list Event) : list Request :=
  match d with
  | [] => []
  | EHttp r :: rest => r :: requests_in rest
  | _ :: rest => requests_in rest
  end.

(** *** The requests of the secret publisher *)

Definition github_headers (token : pystr) : list (pystr * pystr) :=
  [(lit "Authorization", lit "Bearer " ++ token);
   (lit "Accept", lit "application/vnd.github+json");
   (lit "X-GitHub-Api-Version", lit "2022-11-28")].

(** The GET of the public-key endpoint. *)
Definition key_request (token owner repo : pystr) : Request :=
  mkRequest GET
    (lit "https://api.github.com/repos/" ++ owner ++ lit "/" ++ repo
     ++ lit "/actions/secrets/public-key")
    (github_headers token) NoBody 30.

(** The PUT of the named-secret endpoint. *)
Definition put_request (token owner repo secret_name : pystr)
  (encrypted_value key_id : pystr) : Request :=
  mkRequest PUT
    (lit "https://api.github.com/repos/" ++ owner ++ lit "/" ++ repo
     ++ lit "/actions/secrets/" ++ secret_name)
    (github_headers token)
    (JsonBody [(lit "encrypted_value", encrypted_value);
               (lit "key_id", key_id)])
    30.

(** *** The run *)

(** A computation that leaves by [sys.exit] only with the code 1. *)
Definition civil {A} (m : M A) : Prop :=
  forall w code, fst (m w) = Raise (SystemExit code) -> code = 1%Z.

(** [main] has got a browser context in [w3]: Playwright started, the
    browser was launched and gave a context. *)
Definition started (w : World) (b : Browser) (c : Context) (w3 : World)
  : Prop :=
  exists w1 w2,
    start_playwright (log (EPrint (text "🚀 启动浏览器...")) w)
      = (Return tt, w1) /\
    launch w1 = (Return b, w2) /\
    new_context b w2 = (Return c, w3).

(** A run in which the login succeeds and nothing raises after it. *)
Definition clean_run (w : World) : Prop :=
  let env := environ (script w) in
  truthy_opt (env (lit "ZEABUR_COOKIE")) = true /\
  exists b c w3 page w4 w5 w6 w7,
    started w b c w3 /\
    login_with_cookie c (the (env (lit "ZEABUR_COOKIE"))) 2 w3
      = (Return (page, true), w4) /\
    report c page (env (lit "REPO_TOKEN"))
      (the (env (lit "GITHUB_REPOSITORY")))
      (env (lit "TG_BOT_TOKEN")) (env (lit "TG_CHAT_ID")) w4
      = (Return tt, w5) /\
    close_browser b w5 = (Return tt, w6) /\
    stop_playwright w6 = (Return tt, w7).

End Vocabulary.
Import Vocabulary.

(** ** Sample data *)

Module Samples.

Definition target : option pystr := Some (lit ".zeabur.com").

(** Two cookies of the site, as a browser holds them. *)
Definition session_cookies : list Cookie :=
  [mkCookie (lit "token") (lit "abc=1") (Some (lit "zeabur.com")) (lit "/");
   mkCookie (lit "theme") (lit "dark mode") target (lit "/projects")].

(** A cookie of the site whose value holds a [';']. *)
Definition semicolon_cookie : Cookie :=
  mkCookie (lit "a") (lit "b;c") target (lit "/").

(** A cookie of another site. *)
Definition foreign_cookie : Cookie :=
  mkCookie (lit "ga") (lit "1") (Some (lit ".example.com")) (lit "/").

(** A public key as GitHub gives it: 32 bytes, here 1 to 32, in
    base64. *)
Definition repository_key : pystr :=
  lit "AQIDBAUGBwgJCgsMDQ4PEBESExQVFhcYGRobHB0eHyA=".

(** The characters of base64. *)
Definition is_b64 (c : char) : bool :=
  ((65 <=? c) && (c <=? 90) || (97 <=? c) && (c <=? 122)
   || (48 <=? c) && (c <=? 57) || (c =? 43) || (c =? 47))%N.

(** A text that is 32 bytes in base64: 43 characters and one ['=']. *)
Definition key_fits (key : pystr) : bool :=
  forallb is_b64 (firstn 43 key)
  && match skipn 43 key with
     | [c] => (c =? 61)%N
     | _ => false
     end.

(** Sealing in the samples.  A key that is not 32 bytes long is refused,
    as [PublicKey] refuses it.  The ciphertext of a sealed box is random:
    a text of its length stands for it, 48 bytes more than the (ASCII)
    value, in base64. *)
Definition sample_seal (key plaintext : pystr) : Sealing :=
  if key_fits key then
    Sealed (repeat (ch "A") (4 * ((List.length plaintext + 48 + 2) / 3)))
  else SealError (lit "The public key must be exactly 32 bytes long").

Definition key_url : pystr :=
  lit "https://api.github.com/repos/me/site/actions/secrets/public-key".

(** An answer with the public key of the repository in its body. *)
Definition key_answer (status : Z) (phrase : pystr) : Response :=
  mkResponse status phrase key_url
    (JsonObject [(lit "key", repository_key); (lit "key_id", lit "1")]).

(** An environment in which everything works: the dashboard shows, the
    requests are answered with 200 and the key of the repository. *)
Definition fair_script : Script :=
  mkScript
    (fun key => if list_eq_dec N.eq_dec key (lit "ZEABUR_COOKIE")
                then Some (lit "token=abc") else None)
    (fun _ => Landed ZEABUR_DASHBOARD_URL)
    (fun _ => Answered (key_answer 200 (lit "OK")))
    (fun _ => None)
    session_cookies
    sample_seal
    (lit "2026-01-01 00:00:00").

(** The world in which the process starts: nothing has happened. *)
Definition boot (s : Script) : World :=
  mkWorld s 0 0 0 0 [] (fun _ => lit "about:blank") [].

Definition with_navigation (f : nat -> NavOutcome) (s : Script) : Script :=
  mkScript (environ s) f (http s) (fault s) (jar s) (sealed s) (clock s).

Definition with_http (f : nat -> HttpOutcome) (s : Script) : Script :=
  mkScript (environ s) (navigation s) f (fault s) (jar s) (sealed s)
           (clock s).

Definition with_environ (f : pystr -> option pystr) (s : Script) : Script :=
  mkScript f (navigation s) (http s) (fault s) (jar s) (sealed s) (clock s).

Definition login_url : pystr := lit "https://zeabur.com/login".

(** Every navigation ends on the login page. *)
Definition all_redirected : Script :=
  with_navigation (fun _ => Landed login_url) fair_script.

(** Two navigations end on the login page, the third on the dashboard. *)
Definition third_time_lucky : Script :=
  with_navigation
    (fun k => if Nat.ltb k 2 then Landed login_url
              else Landed ZEABUR_DASHBOARD_URL)
    fair_script.

(** Every request is answered 300 Multiple Choices, which requests does
    not follow, with the key of the repository in the body. *)
Definition multiple_choices : Script :=
  with_http
    (fun _ => Answered (key_answer 300 (lit "Multiple Choices")))
    fair_script.

(** Everything works and everything is configured: the token and the
    repository of the secret, the bot and the chat of Telegram. *)
Definition configured : Script :=
  with_environ
    (fun key =>
       if list_eq_dec N.eq_dec key (lit "ZEABUR_COOKIE")
       then Some (lit "token=abc")
       else if list_eq_dec N.eq_dec key (lit "REPO_TOKEN")
       then Some (lit "ghp")
       else if list_eq_dec N.eq_dec key (lit "GITHUB_REPOSITORY")
       then Some (lit "me/site")
       else if list_eq_dec N.eq_dec key (lit "TG_BOT_TOKEN")
       then Some (lit "42:bot")
       else if list_eq_dec N.eq_dec key (lit "TG_CHAT_ID")
       then Some (lit "7")
       else None)
    fair_script.

(** Everything is configured, and every request is answered 500 with
    an empty body. *)
Definition refused : Script :=
  with_http
    (fun k =>
       Answered
         (mkResponse 500 (lit "Internal Server Error")
            (if Nat.eqb k 0 then key_url
             else lit "https://api.telegram.org/bot42:bot/sendMessage")
            (NotJson (lit "Expecting value: line 1 column 1 (char 0)"))))
    configured.

End Samples.
Import Samples.

(** ** More vocabulary *)

Module Terms.

(** The request of [send_telegram_message]. *)
Definition message_request (bot_token chat_id message : pystr) : Request :=
  mkRequest POST
    (lit "https://api.telegram.org/bot" ++ bot_token ++ lit "/sendMessage")
    []
    (JsonBody [(lit "chat_id", chat_id);
               (lit "text", message);
               (lit "parse_mode", lit "HTML")])
    30.

(** The request of [send_telegram_photo]. *)
Definition photo_request (bot_token chat_id photo_path caption : pystr)
  : Request :=
  mkRequest POST
    (lit "https://api.telegram.org/bot" ++ bot_token ++ lit "/sendPhoto")
    []
    (Multipart [(lit "chat_id", chat_id); (lit "caption", caption)]
               [(lit "photo", photo_path)])
    60.

(** What [update_github_secret] has to put, when request number [n] is
    its GET: the sealed value and the key identifier.  There is none
    when the GET fails, when its body is not a JSON object with ['key']
    and ['key_id'], or when sealing raises. *)
Definition envelope (s : Script) (n : nat) (secret : pystr)
  : option (pystr * pystr) :=
  match http s n with
  | NetworkError _ => None
  | Answered r =>
      if ((400 <=? status_code r) && (status_code r <? 600))%Z then None
      else
        match body r with
        | NotJson _ => None
        | JsonObject j =>
            match lookup (lit "key") j with
            | None => None
            | Some key =>
                match sealed s key secret with
                | SealError _ => None
                | Sealed ciphertext =>
                    match lookup (lit "key_id") j with
                    | None => None
                    | Some key_id => Some (ciphertext, key_id)
                    end
                end
            end
        end
  end.

Definition http_call (e : Event) : bool :=
  match e with EHttp _ => true | _ => false end.

Definition is_screenshot (e : Event) : bool :=
  match e with EScreenshot _ _ => true | _ => false end.

(** [w'] is [w] after the events [d]: the script is the same, and the
    count of requests went up by the requests of [d]. *)
Definition advance (w w' : World) (d : list Event) : Prop :=
  script w' = script w /\
  trace w' = trace w ++ d /\
  reqs w' = reqs w + List.length (requests_in d).

(** From [w] the computation [m] has only events that satisfy [Q]. *)
Definition passes (Q : Event -> Prop) {A} (m : M A) (w : World) : Prop :=
  exists d, advance w (snd (m w)) d /\ Forall Q d.

(** A computation all of whose events satisfy [Q], in every world. *)
Definition only (Q : Event -> Prop) {A} (m : M A) : Prop :=
  forall w, passes Q m w.

(** A property of events that is about requests and screenshots only:
    every other event has it. *)
Definition spares (Q : Event -> Prop) : Prop :=
  forall e, http_call e = false -> is_screenshot e = false -> Q e.

(** A computation that never returns. *)
Definition stops {A} (m : M A) : Prop :=
  forall w, exists e, fst (m w) = Raise e.

(** A request to the API of GitHub. *)
Definition github_call (e : Event) : bool :=
  match e with
  | EHttp r => starts_with (lit "https://api.github.com/") (url r)
  | _ => false
  end.

(** A request to the API of Telegram. *)
Definition telegram_call (e : Event) : bool :=
  match e with
  | EHttp r => starts_with (lit "https://api.telegram.org/") (url r)
  | _ => false
  end.

(** The seconds slept along a timeline. *)
Fixpoint slept (ticks : list Tick) : Z :=
  match ticks with
  | [] => 0
  | Pause secs :: rest => secs + slept rest
  | Attempt :: rest => slept rest
  end.

(** The attempts of a timeline. *)
Fixpoint tries (ticks : list Tick) : nat :=
  match ticks with
  | [] => 0
  | Attempt :: rest => S (tries rest)
  | Pause _ :: rest => tries rest
  end.

(** The secret update is configured and there is something to store:
    the condition of line 178. *)
Definition refresh_due (s : Script) : bool :=
  truthy_opt (environ s (lit "REPO_TOKEN"))
  && truthy (the (environ s (lit "GITHUB_REPOSITORY")))
  && truthy (format_cookies (jar s)).

(** The Telegram report is configured: the condition of line 186. *)
Definition telegram_set (s : Script) : bool :=
  truthy_opt (environ s (lit "TG_BOT_TOKEN"))
  && truthy_opt (environ s (lit "TG_CHAT_ID")).

End Terms.
Import Terms.

(** * Theorems *)

(** ** Strings *)

Module StrFacts.

Lemma lstrip_cut (s : pystr) :
  exists pre, s = pre ++ lstrip s /\ forallb is_space pre = true.
Proof.
  induction s as [|c t IH]; simpl.
  - exists []. auto.
  - destruct (is_space c) eqn:E.
    + destruct IH as [pre [H1 H2]]. exists (c :: pre). simpl.
      rewrite E, H2. split; [f_equal; exact H1 | reflexivity].
    + exists []. auto.
Qed.

Lemma lstrip_clean (s : pystr) : starts_clean (lstrip s) = true.
Proof.
  induction s as [|c t IH]; simpl; auto.
  destruct (is_space c) eqn:E; auto. simpl. now rewrite E.
Qed.

Lemma lstrip_fixed (s : pystr) : starts_clean s = true -> lstrip s = s.
Proof.
  destruct s as [|c t]; simpl; auto.
  destruct (is_space c); simpl; congruence.
Qed.

Lemma lstrip_spaces (sp s : pystr) :
  forallb is_space sp = true -> lstrip (sp ++ s) = lstrip s.
Proof.
  induction sp as [|c sp IH]; simpl; auto.
  intros H. apply andb_true_iff in H. destruct H as [Hc H].
  rewrite Hc. auto.
Qed.

Lemma rstrip_cut (s : pystr) :
  exists post, s = rstrip s ++ post /\ forallb is_space post = true.
Proof.
  unfold rstrip. destruct (lstrip_cut (rev s)) as [pre [H1 H2]].
  exists (rev pre). split.
  - rewrite <- rev_app_distr, <- H1. now rewrite rev_involutive.
  - rewrite forallb_forall in *. intros x Hx. apply H2. now apply in_rev.
Qed.

Lemma rstrip_fixed (s : pystr) : ends_clean s = true -> rstrip s = s.
Proof.
  unfold ends_clean, rstrip. intros H. rewrite (lstrip_fixed _ H).
  apply rev_involutive.
Qed.

Lemma rstrip_ends_clean (s : pystr) : ends_clean (rstrip s) = true.
Proof.
  unfold ends_clean, rstrip. rewrite rev_involutive. apply lstrip_clean.
Qed.

Lemma rstrip_starts_clean (s : pystr) :
  starts_clean s = true -> starts_clean (rstrip s) = true.
Proof.
  intros H. destruct (rstrip_cut s) as [post [H1 _]].
  destruct (rstrip s) as [|c r] eqn:E; auto.
  rewrite H1 in H. exact H.
Qed.

Lemma strip_starts_clean (s : pystr) : starts_clean (strip s) = true.
Proof. apply rstrip_starts_clean, lstrip_clean. Qed.

Lemma strip_ends_clean (s : pystr) : ends_clean (strip s) = true.
Proof. apply rstrip_ends_clean. Qed.

Lemma strip_fixed (s : pystr) :
  starts_clean s = true -> ends_clean s = true -> strip s = s.
Proof.
  intros H1 H2. unfold strip. rewrite (lstrip_fixed _ H1).
  now apply rstrip_fixed.
Qed.

Lemma strip_fixed_inv (s : pystr) :
  strip s = s -> starts_clean s = true /\ ends_clean s = true.
Proof.
  intros H. rewrite <- H. split.
  - apply strip_starts_clean.
  - apply strip_ends_clean.
Qed.

Lemma strip_idem (s : pystr) : strip (strip s) = strip s.
Proof.
  apply strip_fixed; [apply strip_starts_clean | apply strip_ends_clean].
Qed.

Lemma lstrip_incl (s : pystr) (c : char) : In c (lstrip s) -> In c s.
Proof.
  destruct (lstrip_cut s) as [pre [H _]]. intros Hc. rewrite H.
  apply in_or_app. now right.
Qed.

Lemma rstrip_incl (s : pystr) (c : char) : In c (rstrip s) -> In c s.
Proof.
  destruct (rstrip_cut s) as [post [H _]]. intros Hc. rewrite H.
  apply in_or_app. now left.
Qed.

Lemma strip_incl (s : pystr) (c : char) : In c (strip s) -> In c s.
Proof. intros H. now apply lstrip_incl, rstrip_incl. Qed.

Lemma lstrip_keeps (s : pystr) (c : char) :
  is_space c = false -> In c s -> In c (lstrip s).
Proof.
  intros Hc. induction s as [|d t IH]; simpl; auto.
  intros [->|H].
  - rewrite Hc. now left.
  - destruct (is_space d); [auto | now right].
Qed.

Lemma rstrip_keeps (s : pystr) (c : char) :
  is_space c = false -> In c s -> In c (rstrip s).
Proof.
  intros Hc H. unfold rstrip. apply -> in_rev.
  apply lstrip_keeps; auto. now apply in_rev in H.
Qed.

Lemma strip_keeps (s : pystr) (c : char) :
  is_space c = false -> In c s -> In c (strip s).
Proof. intros Hc H. now apply rstrip_keeps, lstrip_keeps. Qed.

(** [contains] with a needle of one character is membership. *)
Lemma contains_char (c : char) (s : pystr) :
  contains [c] s = true <-> In c s.
Proof.
  induction s as [|d t IH]; simpl.
  - split; [discriminate | tauto].
  - destruct (N.eqb_spec c d) as [->|Hne]; simpl.
    + destruct t; simpl; tauto.
    + rewrite IH. split; [tauto|]. intros [H|H]; [congruence | exact H].
Qed.

Lemma lacks_char (c : char) (s : pystr) :
  contains [c] s = false <-> ~ In c s.
Proof.
  rewrite <- contains_char. destruct (contains [c] s); split; congruence.
Qed.

Lemma cut_at (sep : char) (s : pystr) :
  ~ In sep s \/
  exists a b, s = a ++ sep :: b /\ ~ In sep a.
Proof.
  induction s as [|c t IH].
  - left. tauto.
  - destruct (N.eqb_spec c sep) as [->|Hne].
    + right. exists [], t. auto.
    + destruct IH as [IH|[a [b [H1 H2]]]].
      * left. simpl. tauto.
      * right. exists (c :: a), b. split; [simpl; now f_equal|].
        simpl. tauto.
Qed.

Lemma split_max1_whole (sep : char) (s : pystr) :
  ~ In sep s -> split_max sep 1 s = [s].
Proof.
  induction s as [|c t IH]; simpl; auto.
  intros H. destruct (N.eqb_spec c sep) as [->|Hne]; [tauto|].
  rewrite IH by tauto. reflexivity.
Qed.

Lemma split_max1_cut (sep : char) (a b : pystr) :
  ~ In sep a -> split_max sep 1 (a ++ sep :: b) = [a; b].
Proof.
  induction a as [|c t IH]; simpl.
  - intros _. rewrite N.eqb_refl. now destruct b.
  - intros H. destruct (N.eqb_spec c sep) as [->|Hne]; [tauto|].
    rewrite IH by tauto. reflexivity.
Qed.

Lemma before_cut (sep : char) (a b : pystr) :
  ~ In sep a -> before sep (a ++ sep :: b) = a.
Proof.
  induction a as [|c t IH]; simpl.
  - now rewrite N.eqb_refl.
  - intros H. destruct (N.eqb_spec c sep) as [->|Hne]; [tauto|].
    now rewrite IH by tauto.
Qed.

Lemma after_cut (sep : char) (a b : pystr) :
  ~ In sep a -> after sep (a ++ sep :: b) = b.
Proof.
  induction a as [|c t IH]; simpl.
  - now rewrite N.eqb_refl.
  - intros H. destruct (N.eqb_spec c sep) as [->|Hne]; [tauto|].
    now rewrite IH by tauto.
Qed.

Lemma split_whole (sep : char) (s : pystr) :
  ~ In sep s -> split sep s = [s].
Proof.
  induction s as [|c t IH]; simpl; auto.
  intros H. destruct (N.eqb_spec c sep) as [->|Hne]; [tauto|].
  rewrite IH by tauto. reflexivity.
Qed.

Lemma split_not_nil (sep : char) (s : pystr) : split sep s <> [].
Proof.
  induction s as [|c t IH]; simpl; [discriminate|].
  destruct (c =? sep)%N; [discriminate|].
  destruct (split sep t); [tauto | discriminate].
Qed.

Lemma split_app_sep (sep : char) (a b : pystr) :
  split sep (a ++ sep :: b) = split sep a ++ split sep b.
Proof.
  induction a as [|c t IH]; simpl.
  - now rewrite N.eqb_refl.
  - destruct (c =? sep)%N.
    + now rewrite IH.
    + rewrite IH. pose proof (split_not_nil sep t) as Hn.
      destruct (split sep t); [tauto | reflexivity].
Qed.

Lemma split_pieces (sep : char) (s p : pystr) :
  In p (split sep s) -> ~ In sep p.
Proof.
  revert p. induction s as [|c t IH]; simpl; intros p.
  - intros [<-|[]]. tauto.
  - destruct (N.eqb_spec c sep) as [->|Hne].
    + intros [<-|H]; [tauto | now apply IH].
    + pose proof (split_not_nil sep t) as Hn.
      destruct (split sep t) as [|q qs]; [tauto|]. simpl.
      intros [<-|H].
      * simpl. intros [E|E]; [congruence|].
        apply (IH q); [now left | exact E].
      * apply IH. now right.
Qed.

Lemma join_split (sep : char) (s : pystr) : join [sep] (split sep s) = s.
Proof.
  induction s as [|c t IH]; simpl; auto.
  pose proof (split_not_nil sep t) as Hn.
  destruct (N.eqb_spec c sep) as [->|Hne].
  - destruct (split sep t) as [|q qs]; [tauto|]. simpl in *. now rewrite IH.
  - destruct (split sep t) as [|q qs]; [tauto|]. simpl in *.
    destruct qs; simpl in *; now rewrite <- IH.
Qed.

End StrFacts.

(** ** The cookie codec *)

Module CodecFacts.
Import StrFacts.

Lemma before_incl (sep c : char) (s : pystr) :
  In c (before sep s) -> In c s.
Proof.
  induction s as [|d t IH]; simpl; auto.
  destruct (d =? sep)%N; simpl; tauto.
Qed.

Lemma before_lacks (sep : char) (s : pystr) : ~ In sep (before sep s).
Proof.
  induction s as [|d t IH]; simpl; auto.
  destruct (N.eqb_spec d sep); simpl; tauto.
Qed.

Lemma after_incl (sep c : char) (s : pystr) :
  In c (after sep s) -> In c s.
Proof.
  induction s as [|d t IH]; simpl; auto.
  destruct (d =? sep)%N; simpl; tauto.
Qed.

(** One round of the loop of [parse_cookies] adds what [decode_piece]
    says, and never raises. *)
Lemma parse_segments_step (seg : pystr) (rest : list pystr)
  (acc : list Cookie) :
  parse_segments (seg :: rest) acc =
  parse_segments rest (acc ++ decode_piece seg).
Proof.
  cbn [parse_segments]. unfold decode_piece.
  change (lit "=") with [ch "="].
  destruct (cut_at (ch "=") (strip seg)) as [Hno | [a [b [Hcut Ha]]]].
  - rewrite (split_max1_whole _ _ Hno). cbn [List.length Nat.eqb].
    replace (contains [ch "="] seg) with false.
    + now rewrite app_nil_r.
    + symmetry. apply lacks_char. intros Hin. apply Hno.
      apply strip_keeps; auto.
  - rewrite Hcut. rewrite split_max1_cut by exact Ha.
    cbn [List.length Nat.eqb getitem nth_error obind].
    replace (contains [ch "="] seg) with true.
    + rewrite before_cut, after_cut by exact Ha. reflexivity.
    + symmetry. apply contains_char. apply strip_incl. rewrite Hcut.
      apply in_elt.
Qed.

Lemma parse_segments_spec (segs : list pystr) (acc : list Cookie) :
  parse_segments segs acc = Return (acc ++ flat_map decode_piece segs).
Proof.
  revert acc. induction segs as [|seg rest IH]; intros acc.
  - simpl. now rewrite app_nil_r.
  - rewrite parse_segments_step, IH. simpl. now rewrite app_assoc.
Qed.

Lemma parse_cookies_spec (s : pystr) :
  parse_cookies s = Return (decode_spec s).
Proof. unfold parse_cookies. now rewrite parse_segments_spec. Qed.

Lemma decode_piece_lacking (seg : pystr) :
  contains (lit "=") seg = false -> decode_piece seg = [].
Proof. unfold decode_piece. now intros ->. Qed.

Lemma decode_lacking (seg : pystr) :
  contains (lit "=") seg = false ->
  flat_map decode_piece (split (ch ";") seg) = [].
Proof.
  intros H. change (lit "=") with [ch "="] in H.
  apply lacks_char in H.
  assert (G : forall s, ~ In (ch "=") s ->
              flat_map decode_piece (split (ch ";") s) = []).
  { clear. induction s as [|c t IH]; intros Hs.
    - reflexivity.
    - assert (Ht : ~ In (ch "=") t) by (simpl in Hs; tauto).
      specialize (IH Ht). cbn [split].
      destruct (c =? ch ";")%N.
      + cbn [flat_map]. rewrite IH. reflexivity.
      + pose proof (split_not_nil (ch ";") t) as Hn.
        destruct (split (ch ";") t) as [|q qs]; [tauto|].
        cbn [cons_first flat_map] in *.
        apply app_eq_nil in IH. destruct IH as [Hq ->].
        rewrite app_nil_r. apply decode_piece_lacking.
        change (lit "=") with [ch "="]. apply lacks_char.
        intros [E|E]; [apply Hs; now left|].
        unfold decode_piece in Hq.
        change (lit "=") with [ch "="] in Hq.
        destruct (contains [ch "="] q) eqn:Eq; [discriminate|].
        apply lacks_char in Eq. tauto. }
  now apply G.
Qed.

(** *** Encoding, then decoding *)

Lemma pair_text_cons (c : Cookie) :
  pair_text c = name c ++ ch "=" :: value c.
Proof. reflexivity. Qed.

Lemma safe_pair_lacks_semicolon (c : Cookie) :
  header_safe c -> ~ In (ch ";") (pair_text c).
Proof.
  intros (Hn & _ & Hv & _). rewrite pair_text_cons.
  change (lit ";") with [ch ";"] in *.
  apply lacks_char in Hn, Hv. intros H. apply in_app_or in H.
  destruct H as [H|[H|H]]; [tauto | discriminate | tauto].
Qed.

Lemma decode_safe_pair (sp : pystr) (c : Cookie) :
  forallb is_space sp = true -> header_safe c ->
  decode_piece (sp ++ pair_text c) = [retarget c].
Proof.
  intros Hsp (_ & Hn & _ & Sn & Sv).
  change (lit "=") with [ch "="] in Hn. apply lacks_char in Hn.
  destruct (strip_fixed_inv _ Sn) as [Sn1 _].
  destruct (strip_fixed_inv _ Sv) as [_ Sv2].
  assert (Hstrip : strip (sp ++ pair_text c) = pair_text c).
  { unfold strip. rewrite lstrip_spaces by exact Hsp.
    rewrite pair_text_cons. rewrite lstrip_fixed.
    - apply rstrip_fixed. unfold ends_clean in *.
      rewrite rev_app_distr. simpl rev.
      destruct (rev (value c)); simpl in *; auto.
    - destruct (name c); simpl in *; auto. }
  unfold decode_piece. rewrite Hstrip.
  replace (contains (lit "=") (sp ++ pair_text c)) with true.
  - rewrite pair_text_cons, before_cut, after_cut by exact Hn.
    rewrite Sn, Sv. reflexivity.
  - symmetry. change (lit "=") with [ch "="]. apply contains_char.
    apply in_or_app. right. rewrite pair_text_cons. apply in_elt.
Qed.

Lemma split_join_semicolon (x : pystr) (xs : list pystr) :
  Forall (fun p => ~ In (ch ";") p) (x :: xs) ->
  split (ch ";") (join (lit "; ") (x :: xs)) = x :: map (cons 32%N) xs.
Proof.
  revert x. induction xs as [|y ys IH]; intros x H.
  - simpl. apply split_whole. now inversion H.
  - change (join (lit "; ") (x :: y :: ys))
      with (x ++ ch ";" :: 32%N :: join (lit "; ") (y :: ys)).
    rewrite split_app_sep. inversion H as [|? ? Hx Hrest]; subst.
    rewrite (split_whole _ _ Hx).
    change (split (ch ";") (32%N :: join (lit "; ") (y :: ys)))
      with (cons_first 32%N (split (ch ";") (join (lit "; ") (y :: ys)))).
    rewrite (IH y Hrest). reflexivity.
Qed.

Lemma decode_spaced_pairs (rs : list Cookie) :
  Forall header_safe rs ->
  flat_map decode_piece (map (cons 32%N) (map pair_text rs)) =
  map retarget rs.
Proof.
  induction 1 as [|c rs Hc _ IH]; cbn [map flat_map]; auto.
  rewrite IH. change (32%N :: pair_text c) with ([32%N] ++ pair_text c).
  rewrite decode_safe_pair; auto.
Qed.

(** What [parse_cookies] reads back from the text of safe cookies. *)
Lemma parse_pairs (rs : list Cookie) :
  Forall header_safe rs ->
  parse_cookies (join (lit "; ") (map pair_text rs)) =
  Return (map retarget rs).
Proof.
  intros H. rewrite parse_cookies_spec. f_equal. unfold decode_spec.
  destruct rs as [|c rest]; [reflexivity|].
  cbn [map]. rewrite split_join_semicolon.
  - inversion H as [|? ? Hc Hrest]; subst. cbn [flat_map].
    change (pair_text c) with ([] ++ pair_text c) at 1.
    rewrite decode_safe_pair by auto.
    rewrite decode_spaced_pairs by exact Hrest. reflexivity.
  - change (pair_text c :: map pair_text rest)
      with (map pair_text (c :: rest)).
    apply Forall_forall. intros p Hp. apply in_map_iff in Hp.
    destruct Hp as [d [<- Hd]]. apply safe_pair_lacks_semicolon.
    rewrite Forall_forall in H. now apply H.
Qed.

Lemma parse_format (rs : list Cookie) :
  Forall header_safe (filter in_target rs) ->
  parse_cookies (format_cookies rs) =
  Return (map retarget (filter in_target rs)).
Proof. intros H. unfold format_cookies. now apply parse_pairs. Qed.

Lemma filter_all {A} (f : A -> bool) (l : list A) :
  Forall (fun x => f x = true) l -> filter f l = l.
Proof.
  induction 1 as [|x l Hx _ IH]; simpl; auto. now rewrite Hx, IH.
Qed.

(** *** What [parse_cookies] produces *)

Lemma decode_piece_shape (seg : pystr) (c : Cookie) :
  ~ In (ch ";") seg -> In c (decode_piece seg) ->
  header_safe c /\ domain c = Some (lit ".zeabur.com") /\ path c = lit "/".
Proof.
  unfold decode_piece. intros Hseg.
  destruct (contains (lit "=") seg); [|intros []].
  intros [<-|[]]. split; [|split; reflexivity].
  unfold header_safe; cbn [name value].
  change (lit ";") with [ch ";"]. change (lit "=") with [ch "="].
  repeat split.
  - apply lacks_char. intros H.
    apply strip_incl, before_incl, strip_incl in H. tauto.
  - apply lacks_char. intros H. apply strip_incl in H.
    now apply before_lacks in H.
  - apply lacks_char. intros H.
    apply strip_incl, after_incl, strip_incl in H. tauto.
  - apply strip_idem.
  - apply strip_idem.
Qed.

Lemma decode_spec_shape (s : pystr) (c : Cookie) :
  In c (decode_spec s) ->
  header_safe c /\ domain c = Some (lit ".zeabur.com") /\ path c = lit "/".
Proof.
  unfold decode_spec. intros H. apply in_flat_map in H.
  destruct H as [seg [Hseg Hc]].
  apply (decode_piece_shape seg); auto.
  now apply (split_pieces (ch ";") s).
Qed.

Lemma retarget_fixed (c : Cookie) :
  domain c = Some (lit ".zeabur.com") -> path c = lit "/" ->
  retarget c = c.
Proof. destruct c; simpl. now intros -> ->. Qed.

Lemma target_domain_matches (c : Cookie) :
  domain c = Some (lit ".zeabur.com") -> in_target c = true.
Proof. unfold in_target, get_domain. now intros ->. Qed.

Lemma decode_spec_kept (s : pystr) :
  filter in_target (decode_spec s) = decode_spec s.
Proof.
  apply filter_all, Forall_forall. intros c Hc.
  apply target_domain_matches. now apply (decode_spec_shape s).
Qed.

Lemma decode_spec_reparsed (s : pystr) :
  parse_cookies (format_cookies (decode_spec s)) = Return (decode_spec s).
Proof.
  rewrite parse_format; rewrite decode_spec_kept.
  - f_equal. rewrite <- (map_id (decode_spec s)) at 2.
    apply map_ext_in. intros c Hc.
    destruct (decode_spec_shape s c Hc) as (_ & Hd & Hp).
    now apply retarget_fixed.
  - apply Forall_forall. intros c Hc. now apply (decode_spec_shape s).
Qed.

End CodecFacts.

(** ** Claims about the codec *)

Module CodecClaims.
Import StrFacts CodecFacts.

Example parse_cookies_sample :
  parse_cookies (lit "a=1; b=2;junk; ;c = x=y ") =
  Return [mkCookie (lit "a") (lit "1") target (lit "/");
          mkCookie (lit "b") (lit "2") target (lit "/");
          mkCookie (lit "c") (lit "x=y") target (lit "/")].
Proof. vm_compute. reflexivity. Qed.

Example format_cookies_sample :
  format_cookies (foreign_cookie :: session_cookies) =
  lit "token=abc=1; theme=dark mode".
Proof. vm_compute. reflexivity. Qed.

(** C5, as stated, fails: cookies whose domains all belong to the target
    domain need not come back from [parse_cookies (format_cookies _)],
    in any order.  A value with a [';'] in it is cut there. *)
Lemma roundtrip_fails_for_any_records :
  ~ (forall records : list Cookie,
       Forall (fun c => in_target c = true) records ->
       exists decoded,
         parse_cookies (format_cookies records) = Return decoded /\
         Permutation (map name_value decoded) (map name_value records)).
Proof.
  intros H. destruct (H [semicolon_cookie]) as [decoded [E P]].
  - repeat constructor.
  - vm_compute in E. injection E as <-.
    apply Permutation_length_1 in P. discriminate P.
Qed.

(** C5, amended: for cookies whose domains all contain the target domain
    and that the header syntax can carry (no [';'] in a name or a value,
    no ['='] in a name, no whitespace around either), decoding the
    encoding gives the same name and value pairs, even in the same
    order. *)
Theorem roundtrip_of_safe_records (records : list Cookie) :
  Forall (fun c => in_target c = true) records ->
  Forall header_safe records ->
  exists decoded,
    parse_cookies (format_cookies records) = Return decoded /\
    map name_value decoded = map name_value records /\
    Permutation (map name_value decoded) (map name_value records).
Proof.
  intros Hin Hsafe. exists (map retarget records).
  assert (E : map name_value (map retarget records)
              = map name_value records).
  { rewrite map_map. apply map_ext. now intros []. }
  split; [|split].
  - rewrite parse_format; rewrite (filter_all _ _ Hin); auto.
  - exact E.
  - rewrite E. apply Permutation_refl.
Qed.

Lemma roundtrip_of_safe_records_witness :
  exists decoded,
    parse_cookies (format_cookies session_cookies) = Return decoded /\
    map name_value decoded = map name_value session_cookies /\
    Permutation (map name_value decoded) (map name_value session_cookies).
Proof.
  apply (roundtrip_of_safe_records session_cookies).
  - repeat constructor.
  - repeat constructor.
Defined.

(** C6: a cookie whose domain does not contain the target domain adds
    nothing to the text of [format_cookies]; the text is made of the
    pairs of the cookies whose domain contains it. *)
Theorem format_cookies_drops_foreign (c : Cookie)
  (earlier later : list Cookie) :
  in_target c = false ->
  format_cookies (earlier ++ c :: later) = format_cookies (earlier ++ later)
  /\ format_cookies (earlier ++ c :: later) =
     join (lit "; ")
       (map pair_text (filter in_target earlier ++ filter in_target later)).
Proof.
  intros H. unfold format_cookies.
  rewrite !filter_app. cbn [filter]. rewrite H. auto.
Qed.

Lemma format_cookies_drops_foreign_witness :
  format_cookies ([semicolon_cookie] ++ foreign_cookie :: session_cookies)
  = format_cookies ([semicolon_cookie] ++ session_cookies)
  /\ format_cookies ([semicolon_cookie] ++ foreign_cookie :: session_cookies)
     = join (lit "; ")
         (map pair_text (filter in_target [semicolon_cookie]
                         ++ filter in_target session_cookies)).
Proof.
  apply (format_cookies_drops_foreign foreign_cookie
           [semicolon_cookie] session_cookies).
  reflexivity.
Defined.

(** C7: [parse_cookies] never raises; it returns the records of the
    pieces (cut at [';']) that hold an ['='], and a piece without one,
    empty or not, changes nothing wherever it stands. *)
Theorem parse_cookies_tolerant (raw : pystr) :
  parse_cookies raw = Return (decode_spec raw) /\
  decode_piece [] = [] /\
  (forall junk, contains (lit "=") junk = false ->
     parse_cookies junk = Return [] /\
     parse_cookies (junk ++ lit ";" ++ raw) = parse_cookies raw /\
     parse_cookies (raw ++ lit ";" ++ junk) = parse_cookies raw /\
     forall rest,
       parse_cookies (raw ++ lit ";" ++ junk ++ lit ";" ++ rest) =
       parse_cookies (raw ++ lit ";" ++ rest)).
Proof.
  split; [apply parse_cookies_spec|]. split; [reflexivity|].
  intros junk H. pose proof (decode_lacking junk H) as Hj.
  change (lit ";") with [ch ";"]. cbn [app].
  rewrite !parse_cookies_spec. unfold decode_spec.
  repeat split.
  - now rewrite Hj.
  - now rewrite split_app_sep, flat_map_app, Hj.
  - now rewrite split_app_sep, flat_map_app, Hj, app_nil_r.
  - intros rest. rewrite !parse_cookies_spec. unfold decode_spec.
    now rewrite !split_app_sep, !flat_map_app, Hj.
Qed.


End CodecClaims.

(** ** Running computations *)

Module RunFacts.

#[global] Arguments text : simpl never.
#[global] Arguments lit : simpl never.
#[global] Arguments str_of_int : simpl never.

(** Unfolds the monad and the calls into the world, not the texts. *)
Ltac run :=
  unfold with_, start_playwright, stop_playwright, launch, new_context,
    close_browser, add_cookies, new_page, wait_for_timeout, close_page,
    screenshot, context_cookies, sleep, open_rb, close_file, print,
    sys_exit;
  unfold external, emit, goto, page_url, request, raise_for_status, json,
    dict_get, seal, environ_get, now_text, try_except, try_finally, lift;
  unfold bind, ret, raise;
  cbn [log tick_call tick_nav tick_req opened closed moved
       script navs reqs calls next_page open_pages location trace
       fst snd negb].

(** The same reduction of worlds, in the hypotheses too. *)
Ltac settle :=
  cbn [log tick_call tick_nav tick_req opened closed moved
       script navs reqs calls next_page open_pages location trace
       fst snd negb] in *.

(** Splits on what the environment answers. *)
Ltac crack :=
  repeat (run;
          match goal with
          | |- context [match http ?s ?k with _ => _ end] =>
              destruct (http s k) eqn:?
          | |- context [match fault ?s ?k with _ => _ end] =>
              destruct (fault s k) eqn:?
          | |- context [match navigation ?s ?k with _ => _ end] =>
              destruct (navigation s k) eqn:?
          | |- context [match body ?r with _ => _ end] =>
              destruct (body r) eqn:?
          | |- context [match lookup ?k ?d with _ => _ end] =>
              destruct (lookup k d) eqn:?
          | |- context [match sealed ?s ?a ?b with _ => _ end] =>
              destruct (sealed s a b) eqn:?
          | |- context [if ?b then _ else _] => destruct b eqn:?
          end).

Lemma bind_returns {A B} (m : M A) (k : A -> M B) (w w' : World) (b : B) :
  bind m k w = (Return b, w') <->
  exists a w1, m w = (Return a, w1) /\ k a w1 = (Return b, w').
Proof.
  unfold bind. destruct (m w) as [[a|e] w1]; split.
  - intros H. now exists a, w1.
  - now intros (a' & w2 & [= -> ->] & H).
  - discriminate.
  - now intros (a' & w2 & [=] & _).
Qed.

Lemma try_finally_returns {A} (m : M A) (c : M unit) (w w' : World) (a : A) :
  try_finally m c w = (Return a, w') <->
  exists w1, m w = (Return a, w1) /\ c w1 = (Return tt, w').
Proof.
  unfold try_finally. destruct (m w) as [r w1].
  destruct (c w1) as [[[]|e] w2] eqn:E; split.
  - intros [= -> ->]. now exists w1.
  - intros (w3 & [= -> ->] & H). rewrite E in H. now injection H as ->.
  - discriminate.
  - intros (w3 & [= -> ->] & H). rewrite E in H. discriminate.
Qed.

End RunFacts.
Import RunFacts.

(** ** The notifier *)

Module NotifierFacts.

(** The request of [send_telegram_message]. *)
Lemma send_telegram_message_runs (bot chat message : pystr) (w : World) :
  exists d,
    extends w (snd (send_telegram_message bot chat message w)) d /\
    fst (send_telegram_message bot chat message w) =
      Return (negb (http_failed (http (script w) (reqs w)))) /\
    reqs (snd (send_telegram_message bot chat message w)) = S (reqs w) /\
    calls (snd (send_telegram_message bot chat message w)) = calls w /\
    script (snd (send_telegram_message bot chat message w)) = script w /\
    (exists r d',
        d = EHttp r :: d' /\ method r = POST /\
        url r = lit "https://api.telegram.org/bot" ++ bot
                ++ lit "/sendMessage") /\
    (http_failed (http (script w) (reqs w)) = true ->
     exists d' e,
       d = d' ++ [EPrint (text "Telegram 消息发送失败: " ++ e)]).
Proof.
  unfold send_telegram_message, extends, http_failed. run.
  destruct (http (script w) (reqs w)) as [msg|resp]; run.
  - eexists. rewrite <- !app_assoc. repeat split; try reflexivity.
    + eexists _, _. repeat split; reflexivity.
    + intros _. now exists [EHttp
        (mkRequest POST
           (lit "https://api.telegram.org/bot" ++ bot ++ lit "/sendMessage")
           [] (JsonBody [(lit "chat_id", chat); (lit "text", message);
                         (lit "parse_mode", lit "HTML")]) 30)], msg.
  - destruct ((400 <=? status_code resp) && (status_code resp <? 600))%Z;
      run.
    + eexists. rewrite <- !app_assoc. repeat split; try reflexivity.
      * eexists _, _. repeat split; reflexivity.
      * intros _. eexists [_], _. reflexivity.
    + eexists. repeat split; try reflexivity.
      * eexists _, _. repeat split; reflexivity.
      * discriminate.
Qed.

(** [send_telegram_photo]: the file is opened first; [False] comes after
    the line about the failure. *)
Lemma send_telegram_photo_runs (bot chat photo caption : pystr) (w : World) :
  exists d,
    extends w (snd (send_telegram_photo bot chat photo caption w)) d /\
    fst (send_telegram_photo bot chat photo caption w) =
      Return (match fault (script w) (calls w) with
              | Some _ => false
              | None => negb (http_failed (http (script w) (reqs w)))
              end) /\
    script (snd (send_telegram_photo bot chat photo caption w)) = script w /\
    (exists d', d = EOpenFile photo :: d') /\
    (fst (send_telegram_photo bot chat photo caption w) = Return false ->
     exists d' e,
       d = d' ++ [EPrint (text "Telegram 图片发送失败: " ++ e)]).
Proof.
  unfold send_telegram_photo, extends, http_failed. run.
  destruct (fault (script w) (calls w)) as [msg|]; run.
  - eexists. rewrite <- !app_assoc. repeat split; try reflexivity.
    + eexists. reflexivity.
    + intros _. eexists [_], _. reflexivity.
  - destruct (http (script w) (reqs w)) as [msg|resp]; run.
    + eexists. rewrite <- !app_assoc. repeat split; try reflexivity.
      * eexists. reflexivity.
      * intros _. eexists [_; _; _], _. reflexivity.
    + destruct ((400 <=? status_code resp) && (status_code resp <? 600))%Z;
        run.
      * eexists. rewrite <- !app_assoc. repeat split; try reflexivity.
        -- eexists. reflexivity.
        -- intros _. eexists [_; _; _], _. reflexivity.
      * eexists. rewrite <- !app_assoc. repeat split; try reflexivity.
        -- eexists. reflexivity.
        -- discriminate.
Qed.

Lemma send_telegram_message_total (bot chat message : pystr) (w : World) :
  exists sent w',
    send_telegram_message bot chat message w = (Return sent, w') /\
    script w' = script w.
Proof.
  destruct (send_telegram_message_runs bot chat message w)
    as (d & _ & Hr & _ & _ & Hs & _).
  destruct (send_telegram_message bot chat message w) as [r w'].
  simpl in *. subst r. eauto.
Qed.

Lemma send_telegram_photo_total (bot chat photo caption : pystr)
  (w : World) :
  exists sent w',
    send_telegram_photo bot chat photo caption w = (Return sent, w') /\
    script w' = script w.
Proof.
  destruct (send_telegram_photo_runs bot chat photo caption w)
    as (d & _ & Hr & Hs & _).
  destruct (send_telegram_photo bot chat photo caption w) as [r w'].
  simpl in *. subst r. eauto.
Qed.

(** The report never raises, and both channels are tried when the bot
    token and the chat are set. *)
Lemma notify_runs (tok cid : option pystr) (now : pystr)
  (logs : list pystr) (w : World) :
  fst (notify tok cid now logs w) = Return tt /\
  script (snd (notify tok cid now logs w)) = script w /\
  (truthy_opt tok && truthy_opt cid = true ->
   exists d1 r d2 d3,
     extends w (snd (notify tok cid now logs w))
       (d1 ++ EHttp r :: d2 ++ EOpenFile SCREENSHOT_PATH :: d3) /\
     url r = lit "https://api.telegram.org/bot" ++ the tok
             ++ lit "/sendMessage").
Proof.
  unfold notify, extends.
  destruct (truthy_opt tok && truthy_opt cid); run.
  2: { repeat split. discriminate. }
  match goal with
  | |- context [send_telegram_message ?b ?c ?m ?w0] =>
      destruct (send_telegram_message_runs b c m w0)
        as (d1 & He1 & Hr1 & _ & _ & Hs1 & (r & d1' & -> & _ & Hu) & _);
      destruct (send_telegram_message b c m w0) as [r1 w1]
  end.
  cbn [fst snd] in *. subst r1.
  match goal with
  | |- context [send_telegram_photo ?b ?c ?f ?cap ?w0] =>
      destruct (send_telegram_photo_runs b c f cap w0)
        as (d2 & He2 & Hr2 & Hs2 & (d2' & ->) & _);
      destruct (send_telegram_photo b c f cap w0) as [r2 w2]
  end.
  cbn [fst snd] in *. subst r2. unfold extends in *.
  cbn [trace script log] in He1, Hs1.
  match goal with
  | |- context [if ?b then _ else _] => destruct b
  end; run; (split; [reflexivity|]); (split; [congruence|]); intros _.
  - exists [EPrint (text "📤 正在发送 Telegram 通知...")], r, d1',
      (d2' ++ [EPrint (text "✅ Telegram 通知已发送")]).
    split; [|exact Hu]. rewrite He2, He1, <- !app_assoc.
    reflexivity.
  - exists [EPrint (text "📤 正在发送 Telegram 通知...")], r, d1',
      (d2' ++ [EPrint (text "⚠️ Telegram 通知部分失败")]).
    split; [|exact Hu]. rewrite He2, He1, <- !app_assoc.
    reflexivity.
Qed.

(** The two places where [main] reports a failure end with
    [sys.exit(1)], whatever Telegram does. *)
Lemma login_failed_exits (tok cid : option pystr) (w : World) :
  fst (login_failed tok cid w) = Raise (SystemExit 1) /\
  script (snd (login_failed tok cid w)) = script w.
Proof.
  unfold login_failed. destruct (truthy_opt tok && truthy_opt cid); run.
  2: now split.
  match goal with
  | |- context [send_telegram_message ?b ?c ?m ?w0] =>
      destruct (send_telegram_message_total b c m w0)
        as (sent & w1 & -> & Hs)
  end. now split.
Qed.

Lemma on_error_exits (tok cid : option pystr) (e : pystr) (w : World) :
  fst (on_error tok cid e w) = Raise (SystemExit 1) /\
  script (snd (on_error tok cid e w)) = script w.
Proof.
  unfold on_error. destruct (truthy_opt tok && truthy_opt cid); run.
  2: now split.
  match goal with
  | |- context [send_telegram_message ?b ?c ?m ?w0] =>
      destruct (send_telegram_message_total b c m w0)
        as (sent & w1 & -> & Hs)
  end. now split.
Qed.

End NotifierFacts.

(** ** The secret publisher *)

Module PublisherFacts.


Lemma update_github_secret_runs
  (token owner repo secret_name secret_value : pystr) (w : World) :
  let out := update_github_secret token owner repo secret_name
               secret_value w in
  exists d,
    extends w (snd out) d /\
    script (snd out) = script w /\
    (d = [EHttp (key_request token owner repo)] \/
     exists enc kid,
       d = [EHttp (key_request token owner repo);
            EHttp (put_request token owner repo secret_name enc kid)]) /\
    (http_failed (http (script w) (reqs w)) = true ->
     d = [EHttp (key_request token owner repo)]) /\
    (d = [EHttp (key_request token owner repo)] ->
     exists e, fst out = Raise (Exception e)) /\
    (http_failed (http (script w) (S (reqs w))) = true ->
     exists e, fst out = Raise (Exception e)) /\
    (fst out = Return tt \/ exists e, fst out = Raise (Exception e)) /\
    (fst out = Return tt ->
     http_failed (http (script w) (reqs w)) = false /\
     http_failed (http (script w) (S (reqs w))) = false /\
     exists enc kid,
       d = [EHttp (key_request token owner repo);
            EHttp (put_request token owner repo secret_name enc kid)]).
Proof.
  unfold update_github_secret, extends.
  fold (github_headers token).
  fold (key_request token owner repo).
  cbv zeta. crack.
  all: run; unfold http_failed, put_request.
  all: repeat match goal with
       | H : http _ _ = _ |- _ => rewrite ?H; clear H
       | H : (_ && _)%bool = _ |- _ => rewrite ?H; clear H
       end.
  all: eexists; rewrite <- ?app_assoc; cbn [app].
  all: (split; [reflexivity|]); (split; [reflexivity|]).
  all: repeat split; intros; try discriminate; try congruence; eauto.
  all: try (right; eexists _, _; reflexivity).
Qed.

End PublisherFacts.

(** ** The login loop *)

Module LoginFacts.

(** Rewrites with what is known of the environment. *)
Ltac known :=
  repeat match goal with
         | H : forall k, fault _ k = None |- _ => rewrite H
         | H : fault _ _ = _ |- _ => rewrite H
         | H : navigation _ _ = _ |- _ => rewrite H
         | H : contains _ _ = _ |- _ => rewrite H
         | H : (_ <? _)%Z = _ |- _ => rewrite H
         | |- context [Nat.eqb ?p ?p] => rewrite Nat.eqb_refl
         end.

Ltac go := repeat (run; progress known); run.

Lemma timeline_app (d1 d2 : list Event) :
  timeline (d1 ++ d2) = timeline d1 ++ timeline d2.
Proof.
  induction d1 as [|e d1 IH]; simpl; auto.
  destruct e; simpl; now rewrite ?IH.
Qed.

Lemma closed_in_app (d1 d2 : list Event) :
  closed_in (d1 ++ d2) = closed_in d1 ++ closed_in d2.
Proof.
  induction d1 as [|e d1 IH]; simpl; auto.
  destruct e; simpl; now rewrite ?IH.
Qed.

Lemma open_after_app (n : nat) (d1 d2 : list Event) :
  open_after n (d1 ++ d2) = open_after (open_after n d1) d2.
Proof.
  revert n. induction d1 as [|e d1 IH]; intros n; simpl; auto.
  destruct e; simpl; now rewrite ?IH.
Qed.

Lemma most_open_ge (n : nat) (d : list Event) : n <= most_open n d.
Proof.
  revert n. induction d as [|e d IH]; intros n; simpl; auto.
  destruct e; simpl; auto; lia.
Qed.

Lemma most_open_app (n : nat) (d1 d2 : list Event) :
  most_open n (d1 ++ d2)
  = Nat.max (most_open n d1) (most_open (open_after n d1) d2).
Proof.
  revert n. induction d1 as [|e d1 IH]; intros n; simpl.
  - pose proof (most_open_ge n d2). lia.
  - destruct e; simpl; rewrite ?IH; auto; lia.
Qed.

Lemma extends_trans (w1 w2 w3 : World) (d1 d2 : list Event) :
  extends w1 w2 d1 -> extends w2 w3 d2 -> extends w1 w3 (d1 ++ d2).
Proof. unfold extends. intros H1 H2. now rewrite H2, H1, app_assoc. Qed.

Lemma close_fresh (p : Page) (pages : list Page) :
  Forall (fun q => q < p) pages ->
  filter (fun q => negb (Nat.eqb q p)) (p :: pages) = pages.
Proof.
  intros H. cbn [filter]. rewrite Nat.eqb_refl. cbn [negb].
  induction H as [|q l Hq _ IH]; cbn [filter]; auto.
  destruct (Nat.eqb_spec q p); [lia|]. cbn [negb]. now rewrite IH.
Qed.

Lemma for_app {A R} (l1 l2 : list A) (body : A -> M (option R))
  (after : M R) (w : World) :
  for_ (l1 ++ l2) body after w = for_ l1 body (for_ l2 body after) w.
Proof.
  revert w. induction l1 as [|x l1 IH]; intros w; cbn [for_ app]; auto.
  unfold bind. destruct (body x w) as [[[v|]|e] w1]; auto.
Qed.

(** *** One round, whatever the environment does *)

Lemma round_any (context : Context) (max_retries attempt : Z) (w : World) :
  exists d,
    extends w (snd (attempt_body context max_retries attempt w)) d /\
    script (snd (attempt_body context max_retries attempt w)) = script w /\
    (fst (attempt_body context max_retries attempt w) = Return None ->
     timeline d = round max_retries attempt) /\
    (fst (attempt_body context max_retries attempt w) <> Return None ->
     timeline d = [] \/ timeline d = [Attempt]) /\
    (forall code,
       fst (attempt_body context max_retries attempt w)
       <> Raise (SystemExit code)).
Proof.
  unfold attempt_body, extends. cbv zeta. crack.
  all: run; eexists; rewrite <- ?app_assoc; cbn [app].
  all: (split; [reflexivity|]); (split; [reflexivity|]).
  all: unfold round; cbn [timeline].
  all: repeat match goal with
       | H : (_ <? _)%Z = _ |- _ => rewrite ?H; clear H
       end.
  all: repeat split; intros; try discriminate; try congruence; auto.
Qed.

(** *** One round with a browser that works *)

Lemma round_rejected (context : Context) (max_retries attempt : Z)
  (w : World) :
  healthy w -> fresh_handles w ->
  rejected (navigation (script w) (navs w)) = true ->
  exists w' d,
    attempt_body context max_retries attempt w = (Return None, w') /\
    script w' = script w /\
    navs w' = S (navs w) /\
    next_page w' = S (next_page w) /\
    open_pages w' = open_pages w /\
    extends w w' d /\
    timeline d = round max_retries attempt /\
    closed_in d = [next_page w] /\
    (forall n, open_after n d = n /\ most_open n d = S n).
Proof.
  unfold healthy, fresh_handles, extends. intros Hf Hp Hrej.
  pose proof (close_fresh _ _ Hp) as Hclose.
  unfold attempt_body, round. cbv zeta.
  destruct (navigation (script w) (navs w)) as [msg|u] eqn:Hnav;
    cbn [rejected] in Hrej;
    destruct (attempt <? max_retries)%Z eqn:Hlt; go.
  all: eexists _, _; split; [reflexivity|]; run.
  all: rewrite <- ?app_assoc; cbn [app].
  all: repeat split; auto.
  all: cbn [open_after most_open]; lia.
Qed.

Lemma round_accepted (context : Context) (max_retries attempt : Z)
  (w : World) (u : pystr) :
  healthy w ->
  navigation (script w) (navs w) = Landed u ->
  contains (lit "/login") u = false ->
  exists w' d,
    attempt_body context max_retries attempt w
      = (Return (Some (next_page w, true)), w') /\
    script w' = script w /\
    navs w' = S (navs w) /\
    next_page w' = S (next_page w) /\
    open_pages w' = next_page w :: open_pages w /\
    location w' (next_page w) = u /\
    extends w w' d /\
    timeline d = [Attempt] /\
    closed_in d = [] /\
    (forall n, open_after n d = S n /\ most_open n d = S n).
Proof.
  unfold healthy, extends. intros Hf Hnav Hu.
  unfold attempt_body. cbv zeta. go.
  eexists _, _; split; [reflexivity|]; run.
  rewrite <- ?app_assoc; cbn [app]. rewrite Nat.eqb_refl.
  repeat split; auto.
  all: cbn [open_after most_open]; lia.
Qed.

(** *** The loop *)

Lemma rounds_any (context : Context) (max_retries : Z)
  (after : M (Page * bool)) (items : list Z) (w : World) :
  quiet after ->
  let out := for_ items (attempt_body context max_retries) after w in
  (exists d n,
      extends w (snd out) d /\
      timeline d = firstn n (flat_map (round max_retries) items)) /\
  script (snd out) = script w /\
  (forall code, fst out <> Raise (SystemExit code)).
Proof.
  intros Hafter. revert w. induction items as [|x rest IH]; intros w.
  - cbn [for_]. destruct (Hafter w) as ((d & He & Ht) & Hs & Hx).
    split; [|split]; auto. exists d, 0. now split.
  - cbn [for_ flat_map]. unfold bind.
    destruct (round_any context max_retries x w)
      as (d1 & He1 & Hs1 & Hnone & Hsome & Hx1).
    destruct (attempt_body context max_retries x w) as [[[v|]|e] w1];
      cbn [fst snd] in *.
    + split; [|split]; [|exact Hs1|discriminate].
      destruct Hsome as [Ht|Ht]; [discriminate| |].
      * exists d1, 0. now split.
      * exists d1, 1. now split.
    + destruct (IH w1) as ((d2 & n & He2 & Ht2) & Hs2 & Hx2).
      split; [|split]; auto; [|congruence].
      exists (d1 ++ d2), (List.length (round max_retries x) + n).
      split; [now apply (extends_trans w w1)|].
      rewrite timeline_app, Hnone, Ht2 by reflexivity.
      now rewrite firstn_app_2.
    + split; [|split]; [|exact Hs1|].
      2: { intros code [= ->]. now apply (Hx1 code). }
      destruct Hsome as [Ht|Ht]; [discriminate| |].
      * exists d1, 0. now split.
      * exists d1, 1. now split.
Qed.

Lemma rounds_rejected (context : Context) (max_retries : Z)
  (after : M (Page * bool)) (n : nat) :
  forall (a : nat) (w : World),
    healthy w -> fresh_handles w ->
    (forall i, i < n ->
       rejected (navigation (script w) (navs w + i)) = true) ->
    exists w' d,
      for_ (map Z.of_nat (seq a n)) (attempt_body context max_retries)
        after w = after w' /\
      script w' = script w /\
      navs w' = navs w + n /\
      next_page w' = next_page w + n /\
      open_pages w' = open_pages w /\
      extends w w' d /\
      timeline d = flat_map (round max_retries) (map Z.of_nat (seq a n)) /\
      closed_in d = seq (next_page w) n /\
      (forall m, open_after m d = m /\ most_open m d <= S m).
Proof.
  induction n as [|n IH]; intros a w Hh Hp Hrej.
  - exists w, []. cbn [seq map for_ flat_map]. unfold extends.
    rewrite !Nat.add_0_r, app_nil_r. repeat split; try reflexivity.
    cbn [most_open]. lia.
  - cbn [seq map for_ flat_map]. unfold bind.
    destruct (round_rejected context max_retries (Z.of_nat a) w Hh Hp)
      as (w1 & d1 & -> & Hs1 & Hn1 & Hq1 & Ho1 & He1 & Ht1 & Hc1 & Hm1).
    { rewrite <- (Nat.add_0_r (navs w)). apply Hrej. lia. }
    destruct (IH (S a) w1)
      as (w' & d2 & -> & Hs & Hn & Hq & Ho & He & Ht & Hc & Hm).
    + unfold healthy in *. now rewrite Hs1.
    + unfold fresh_handles in *. rewrite Ho1, Hq1.
      eapply Forall_impl; [|exact Hp]. cbn beta. lia.
    + intros i Hi. rewrite Hs1, Hn1.
      replace (S (navs w) + i) with (navs w + S i) by lia.
      apply Hrej. lia.
    + exists w', (d1 ++ d2). split; [reflexivity|].
      rewrite Hs, Hs1, Hn, Hn1, Hq, Hq1, Ho, Ho1.
      rewrite timeline_app, closed_in_app, Ht1, Ht, Hc1, Hc, Hq1.
      repeat split; try lia.
      * now apply (extends_trans w w1).
      * rewrite open_after_app. destruct (Hm1 m) as [-> _]. apply Hm.
      * rewrite most_open_app. destruct (Hm1 m) as [-> ->].
        destruct (Hm m). lia.
Qed.

(** *** The whole of [login_with_cookie] *)

Lemma login_any (context : Context) (cookie_string : pystr)
  (max_retries : Z) (w : World) :
  let out := login_with_cookie context cookie_string max_retries w in
  (exists d n,
      extends w (snd out) d /\
      timeline d = firstn n (schedule max_retries)) /\
  script (snd out) = script w /\
  (forall code, fst out <> Raise (SystemExit code)).
Proof.
  unfold login_with_cookie. rewrite CodecFacts.parse_cookies_spec.
  set (after := (print (text "❌ Cookie 已过期") ;;
                 page <- new_page context ;; ret (page, false))).
  assert (Hafter : quiet after).
  { intros w0. unfold after, extends. crack.
    all: run; repeat split; try discriminate.
    all: eexists; rewrite <- ?app_assoc; split; reflexivity. }
  cbv zeta. run.
  destruct (fault (script w) (calls w)) as [msg|]; run.
  - split; [|split]; auto; [|discriminate].
    exists [EPrint (text "🍪 尝试 Cookie 登录...");
            EAddCookies (decode_spec cookie_string)], 0.
    unfold extends. run. now rewrite <- app_assoc.
  - match goal with
    | |- context [for_ ?items ?body after ?w0] =>
        destruct (rounds_any context max_retries after items w0 Hafter)
          as ((d & n & He & Ht) & Hs & Hx)
    end.
    split; [|split]; auto.
    exists ([EPrint (text "🍪 尝试 Cookie 登录...");
             EAddCookies (decode_spec cookie_string)] ++ d), n.
    split.
    + unfold extends in *. rewrite He. cbn [trace log tick_call].
      now rewrite <- !app_assoc.
    + rewrite timeline_app. exact Ht.
Qed.

(** Every attempt is rejected: the loop runs out, and a page opened
    after it comes back with [False]. *)
Lemma login_exhausted (context : Context) (cookie_string : pystr)
  (max_retries : Z) (w : World) :
  healthy w -> fresh_handles w ->
  (forall i, i < Z.to_nat (max_retries + 1) ->
     rejected (navigation (script w) (navs w + i)) = true) ->
  exists w' d,
    login_with_cookie context cookie_string max_retries w
      = (Return (next_page w + Z.to_nat (max_retries + 1), false), w') /\
    script w' = script w /\
    open_pages w'
      = (next_page w + Z.to_nat (max_retries + 1)) :: open_pages w /\
    extends w w' d /\
    timeline d = schedule max_retries /\
    closed_in d = seq (next_page w) (Z.to_nat (max_retries + 1)) /\
    (forall m, open_after m d = S m /\ most_open m d = S m).
Proof.
  intros Hh Hp Hrej.
  unfold login_with_cookie. rewrite CodecFacts.parse_cookies_spec.
  set (after := (print (text "❌ Cookie 已过期") ;;
                 page <- new_page context ;; ret (page, false))).
  pose proof Hh as Hf. unfold healthy in Hf.
  run. rewrite Hf. run. unfold range.
  match goal with
  | |- context [for_ _ _ after ?w0] =>
      destruct (rounds_rejected context max_retries after
                  (Z.to_nat (max_retries + 1)) 0 w0)
        as (w1 & d & -> & Hs & Hn & Hq & Ho & He & Ht & Hc & Hm);
      [exact Hh | exact Hp | exact Hrej |]
  end.
  unfold extends in *. settle.
  unfold after. run. rewrite Hs, Hf. run.
  eexists _, _. split; [rewrite Hq; reflexivity|]. run.
  rewrite Hs, Ho, He. rewrite <- !app_assoc. cbn [app].
  repeat split; try reflexivity.
  - cbn [timeline]. rewrite timeline_app, Ht. cbn [timeline].
    now rewrite app_nil_r.
  - cbn [closed_in]. rewrite closed_in_app, Hc. cbn [closed_in].
    now rewrite app_nil_r.
  - cbn [open_after]. rewrite open_after_app. destruct (Hm m) as [-> _].
    reflexivity.
  - cbn [most_open]. rewrite most_open_app. destruct (Hm m) as [-> Hle].
    cbn [most_open]. pose proof (most_open_ge m d). lia.
Qed.

(** The first [k] attempts are rejected and the next one shows the
    dashboard: its page comes back with [True], open. *)
Lemma login_accepted (context : Context) (cookie_string : pystr)
  (max_retries : Z) (w : World) (k : nat) (u : pystr) :
  healthy w -> fresh_handles w ->
  k < Z.to_nat (max_retries + 1) ->
  (forall i, i < k ->
     rejected (navigation (script w) (navs w + i)) = true) ->
  navigation (script w) (navs w + k) = Landed u ->
  contains (lit "/login") u = false ->
  exists w' d,
    login_with_cookie context cookie_string max_retries w
      = (Return (next_page w + k, true), w') /\
    script w' = script w /\
    open_pages w' = (next_page w + k) :: open_pages w /\
    location w' (next_page w + k) = u /\
    extends w w' d /\
    timeline d
      = flat_map (round max_retries) (map Z.of_nat (seq 0 k)) ++ [Attempt] /\
    closed_in d = seq (next_page w) k /\
    (forall m, open_after m d = S m /\ most_open m d = S m).
Proof.
  intros Hh Hp Hk Hrej Hnav Hu.
  unfold login_with_cookie. rewrite CodecFacts.parse_cookies_spec.
  set (after := (print (text "❌ Cookie 已过期") ;;
                 page <- new_page context ;; ret (page, false))).
  pose proof Hh as Hf. unfold healthy in Hf.
  run. rewrite Hf. run. unfold range.
  replace (Z.to_nat (max_retries + 1))
    with (k + S (Z.to_nat (max_retries + 1) - S k)) by lia.
  rewrite seq_app, map_app, for_app. cbn [seq map].
  match goal with
  | |- context [for_ _ _ ?rest ?w0] =>
      destruct (rounds_rejected context max_retries rest k 0 w0)
        as (w1 & d & -> & Hs & Hn & Hq & Ho & He & Ht & Hc & Hm);
      [exact Hh | exact Hp | exact Hrej |]
  end.
  settle.
  cbn [for_]. unfold bind at 1.
  destruct (round_accepted context max_retries (Z.of_nat (0 + k)) w1 u)
    as (w2 & d2 & -> & Hs2 & Hn2 & Hq2 & Ho2 & Hl2 & He2 & Ht2 & Hc2 & Hm2).
  { unfold healthy. now rewrite Hs. }
  { now rewrite Hs, Hn. }
  { exact Hu. }
  run. eexists _, _. split; [rewrite Hq; reflexivity|].
  rewrite Hs2, Hs, Ho2, Ho, <- Hq, Hl2. unfold extends in *. settle.
  rewrite He2, He. rewrite <- !app_assoc. cbn [app].
  repeat split; try reflexivity.
  - cbn [timeline]. rewrite !timeline_app, Ht, Ht2. reflexivity.
  - cbn [closed_in]. rewrite !closed_in_app, Hc, Hc2.
    now rewrite app_nil_r.
  - cbn [open_after]. rewrite open_after_app. destruct (Hm m) as [-> _].
    apply Hm2.
  - cbn [most_open]. rewrite most_open_app. destruct (Hm m) as [-> Hle].
    destruct (Hm2 m) as [_ ->]. pose proof (most_open_ge m d). lia.
Qed.

(** *** What the outcome of a login says about its timeline *)

(** A round that hands over to the next one has made its attempt and,
    with retries left, slept; a round that returns, returns [True]
    right after its attempt. *)
Lemma round_outcome (context : Context) (max_retries attempt : Z)
  (w : World) :
  let out := attempt_body context max_retries attempt w in
  exists d,
    extends w (snd out) d /\
    (fst out = Return None -> timeline d = round max_retries attempt) /\
    (forall page ok,
       fst out = Return (Some (page, ok)) ->
       ok = true /\ timeline d = [Attempt]).
Proof.
  unfold attempt_body, extends. cbv zeta. crack.
  all: run; eexists; rewrite <- ?app_assoc; cbn [app].
  all: split; [reflexivity|].
  all: unfold round; cbn [timeline].
  all: repeat match goal with
       | H : (_ <? _)%Z = _ |- _ => rewrite ?H; clear H
       end.
  all: split; [intros H; first [discriminate H | reflexivity]|].
  all: intros page ok H; first [discriminate H | injection H as <- <-].
  all: split; reflexivity.
Qed.

Lemma rounds_outcome (context : Context) (max_retries : Z)
  (after : M (Page * bool)) (n : nat) :
  quiet after ->
  (forall w page w', after w <> (Return (page, true), w')) ->
  forall (a : nat) (w : World),
    let out := for_ (map Z.of_nat (seq a n))
                 (attempt_body context max_retries) after w in
    exists d,
      extends w (snd out) d /\
      (forall page w',
         out = (Return (page, true), w') ->
         exists k,
           k < n /\
           timeline d
           = flat_map (round max_retries) (map Z.of_nat (seq a k))
             ++ [Attempt]) /\
      (forall page w',
         out = (Return (page, false), w') ->
         timeline d
         = flat_map (round max_retries) (map Z.of_nat (seq a n))).
Proof.
  intros Hquiet Hfalse. cbv zeta.
  induction n as [|n IH]; intros a w.
  - cbn [seq map for_ flat_map].
    destruct (Hquiet w) as ((d & He & Ht) & _). exists d.
    split; [exact He|]. split.
    + intros page w' H. now destruct (Hfalse w page w').
    + intros _ _ _. exact Ht.
  - cbn [seq map for_]. unfold bind.
    destruct (round_outcome context max_retries (Z.of_nat a) w)
      as (d1 & He1 & Hnone & Hsome).
    destruct (attempt_body context max_retries (Z.of_nat a) w)
      as [[[[p ok]|]|e] w1]; cbn [fst snd] in *.
    + destruct (Hsome p ok eq_refl) as [-> Ht]. exists d1.
      split; [exact He1|]. split.
      * intros page w' _. exists 0. split; [lia|]. exact Ht.
      * intros page w' H. discriminate H.
    + destruct (IH (S a) w1) as (d2 & He2 & Htrue & Hno).
      exists (d1 ++ d2). split; [now apply (extends_trans w w1)|].
      rewrite timeline_app, (Hnone eq_refl). split.
      * intros page w' H. destruct (Htrue page w' H) as (k & Hk & Ht).
        exists (S k). split; [lia|].
        cbn [seq map flat_map]. now rewrite Ht, app_assoc.
      * intros page w' H. cbn [flat_map]. now rewrite (Hno page w' H).
    + exists d1. split; [exact He1|]. split; intros page w' H;
        discriminate H.
Qed.

(** The timeline of a login that returns: with [True] it ends at an
    attempt, after the full rounds of the attempts before it; with
    [False] it is the whole schedule. *)
Lemma login_outcome (context : Context) (cookie_string : pystr)
  (max_retries : Z) (w : World) :
  let out := login_with_cookie context cookie_string max_retries w in
  exists d,
    extends w (snd out) d /\
    (forall page w',
       out = (Return (page, true), w') ->
       exists k,
         k < Z.to_nat (max_retries + 1) /\
         timeline d
         = flat_map (round max_retries) (map Z.of_nat (seq 0 k))
           ++ [Attempt]) /\
    (forall page w',
       out = (Return (page, false), w') ->
       timeline d = schedule max_retries).
Proof.
  unfold login_with_cookie. rewrite CodecFacts.parse_cookies_spec.
  set (after := (print (text "❌ Cookie 已过期") ;;
                 page <- new_page context ;; ret (page, false))).
  assert (Hafter : quiet after).
  { intros w0. unfold after, extends. crack.
    all: run; repeat split; try discriminate.
    all: eexists; rewrite <- ?app_assoc; split; reflexivity. }
  assert (Hfalse : forall w0 page w', after w0 <> (Return (page, true), w')).
  { intros w0 page w'. unfold after. crack. all: run; discriminate. }
  cbv zeta. run.
  destruct (fault (script w) (calls w)) as [msg|]; run.
  - exists [EPrint (text "🍪 尝试 Cookie 登录...");
            EAddCookies (decode_spec cookie_string)].
    unfold extends. run. rewrite <- app_assoc.
    split; [reflexivity|]. split; intros page w' H; discriminate H.
  - unfold schedule, range.
    match goal with
    | |- context [for_ ?items ?body after ?w0] =>
        destruct (rounds_outcome context max_retries after
                    (Z.to_nat (max_retries + 1)) Hafter Hfalse 0 w0)
          as (d & He & Htrue & Hno)
    end.
    exists ([EPrint (text "🍪 尝试 Cookie 登录...");
             EAddCookies (decode_spec cookie_string)] ++ d).
    unfold extends in *. settle. rewrite He, <- !app_assoc.
    split; [reflexivity|]. rewrite timeline_app. cbn [timeline app].
    split; assumption.
Qed.

End LoginFacts.

(** ** The run *)

Module MainFacts.
Import NotifierFacts PublisherFacts LoginFacts.

Lemma civil_ret {A} (a : A) : civil (ret a).
Proof. intros w code. discriminate. Qed.

Lemma civil_bind {A B} (m : M A) (k : A -> M B) :
  civil m -> (forall a, civil (k a)) -> civil (bind m k).
Proof.
  intros Hm Hk w code. unfold bind.
  specialize (Hm w code). destruct (m w) as [[a|e] w1]; cbn [fst] in *.
  - apply Hk.
  - intros [= ->]. now apply Hm.
Qed.

Lemma civil_try_except {A} (m : M A) (h : pystr -> M A) :
  civil m -> (forall e, civil (h e)) -> civil (try_except m h).
Proof.
  intros Hm Hh w code. unfold try_except.
  specialize (Hm w code). destruct (m w) as [[a|[msg|c]] w1]; cbn [fst] in *.
  - discriminate.
  - apply Hh.
  - exact Hm.
Qed.

Lemma civil_try_finally {A} (m : M A) (c : M unit) :
  civil m -> civil c -> civil (try_finally m c).
Proof.
  intros Hm Hc w code. unfold try_finally.
  specialize (Hm w code). destruct (m w) as [r w1].
  specialize (Hc w1 code). destruct (c w1) as [[[]|e] w2]; cbn [fst] in *.
  - exact Hm.
  - intros [= ->]. now apply Hc.
Qed.

Lemma civil_with {A B} (enter : M A) (leave : M unit) (block : A -> M B) :
  civil enter -> civil leave -> (forall a, civil (block a)) ->
  civil (with_ enter leave block).
Proof.
  intros He Hl Hb. unfold with_. apply civil_bind; auto.
  intros a. apply civil_try_finally; auto.
Qed.

Lemma civil_external (e : Event) : civil (external e).
Proof.
  intros w code. unfold external.
  destruct (fault (script w) (calls w)); discriminate.
Qed.

Lemma civil_print (line : pystr) : civil (print line).
Proof. intros w code. discriminate. Qed.

Lemma civil_sys_exit {A} : civil (@sys_exit A 1).
Proof. intros w code [= <-]. reflexivity. Qed.

Lemma civil_total {A} (m : M A) :
  (forall w code, fst (m w) <> Raise (SystemExit code)) -> civil m.
Proof. intros H w code E. now apply H in E. Qed.

Lemma civil_update_github_secret (token owner repo name value : pystr) :
  civil (update_github_secret token owner repo name value).
Proof.
  apply civil_total. intros w code E.
  destruct (update_github_secret_runs token owner repo name value w)
    as (d & _ & _ & _ & _ & _ & _ & [H|[e H]] & _); cbv zeta in *;
    congruence.
Qed.

Lemma civil_refresh_secret (repo_token : option pystr)
  (repo cookie : pystr) (logs : list pystr) :
  civil (refresh_secret repo_token repo cookie logs).
Proof.
  unfold refresh_secret.
  destruct (truthy_opt repo_token && truthy repo && truthy cookie);
    [|apply civil_ret].
  apply civil_bind; [apply civil_print|]. intros _.
  apply civil_bind.
  { unfold unpack2. destruct (split (ch "/") repo) as [|a [|b [|c l]]];
      try apply civil_ret; intros w code; discriminate. }
  intros names. apply civil_bind; [apply civil_update_github_secret|].
  intros _. apply civil_bind; [apply civil_print|]. intros _.
  apply civil_ret.
Qed.

Lemma civil_notify (tok cid : option pystr) (now : pystr)
  (logs : list pystr) : civil (notify tok cid now logs).
Proof.
  apply civil_total. intros w code E.
  destruct (notify_runs tok cid now logs w) as (H & _). congruence.
Qed.

Lemma civil_report (context : Context) (page : Page)
  (repo_token : option pystr) (repo : pystr) (tok cid : option pystr) :
  civil (report context page repo_token repo tok cid).
Proof.
  unfold report.
  apply civil_bind; [intros w code; discriminate|]. intros now.
  apply civil_bind; [apply civil_print|]. intros _.
  apply civil_bind; [apply civil_external|]. intros _.
  apply civil_bind; [apply civil_print|]. intros _.
  apply civil_bind.
  { unfold context_cookies. apply civil_bind; [apply civil_external|].
    intros _ w code. discriminate. }
  intros jar_now. cbv zeta.
  apply civil_bind; [apply civil_refresh_secret|]. intros logs.
  apply civil_notify.
Qed.

Lemma civil_login_failed (tok cid : option pystr) : civil (login_failed tok cid).
Proof.
  intros w code E. destruct (login_failed_exits tok cid w) as [H _].
  congruence.
Qed.

Lemma civil_on_error (tok cid : option pystr) (e : pystr) :
  civil (on_error tok cid e).
Proof.
  intros w code E. destruct (on_error_exits tok cid e w) as [H _].
  congruence.
Qed.

Lemma civil_session (context : Context)
  (cookie repo_token : option pystr) (repo : pystr)
  (tok cid : option pystr) :
  civil (session context cookie repo_token repo tok cid).
Proof.
  unfold session. apply civil_bind.
  { apply civil_total. intros w.
    now destruct (login_any context (the cookie) 2 w) as (_ & _ & H). }
  intros r. cbv zeta. apply civil_bind.
  - destruct (negb (snd r)); [apply civil_login_failed | apply civil_ret].
  - intros _. apply civil_report.
Qed.

Lemma civil_main : civil main.
Proof.
  unfold main.
  do 5 (apply civil_bind; [intros w code; discriminate|]; intros ?).
  cbv zeta. apply civil_bind.
  { destruct (negb _); [|apply civil_ret].
    apply civil_bind; [apply civil_print|]. intros _. apply civil_sys_exit. }
  intros _. apply civil_bind; [apply civil_print|]. intros _.
  apply civil_with; try apply civil_external. intros _.
  apply civil_bind.
  { unfold launch. apply civil_bind; [apply civil_external|].
    intros _. apply civil_ret. }
  intros b. apply civil_bind.
  { unfold new_context. apply civil_bind; [apply civil_external|].
    intros _. apply civil_ret. }
  intros c. apply civil_try_finally; [|apply civil_external].
  apply civil_try_except; [apply civil_session|].
  intros e. apply civil_on_error.
Qed.

Lemma exit_status_0_or_1 (w : World) : fst (run w) = 0%Z \/ fst (run w) = 1%Z.
Proof.
  unfold run. cbn [fst]. pose proof (civil_main w) as H.
  destruct (fst (main w)) as [[]|[msg|code]]; cbn [exit_status];
    [now left | now right | right; now apply H].
Qed.

Lemma exit_status_0 (w : World) :
  fst (run w) = 0%Z <-> fst (main w) = Return tt.
Proof.
  unfold run. cbn [fst]. pose proof (civil_main w) as H.
  destruct (fst (main w)) as [[]|[msg|code]]; cbn [exit_status].
  - tauto.
  - split; discriminate.
  - split; [|discriminate]. intros ->. now discriminate (H 0%Z eq_refl).
Qed.

Lemma session_returns (context : Context)
  (cookie repo_token : option pystr) (repo : pystr)
  (tok cid : option pystr) (w w' : World) :
  session context cookie repo_token repo tok cid w = (Return tt, w') <->
  exists page w1,
    login_with_cookie context (the cookie) 2 w = (Return (page, true), w1) /\
    report context page repo_token repo tok cid w1 = (Return tt, w').
Proof.
  unfold session. rewrite bind_returns. split.
  - intros ([page ok] & w1 & Hl & H). cbn [fst snd] in H.
    rewrite bind_returns in H. destruct H as ([] & w2 & Hc & Hr).
    destruct ok; cbn [negb] in Hc.
    + injection Hc as <-. eauto.
    + destruct (login_failed_exits tok cid w1) as [G _]. rewrite Hc in G.
      discriminate.
  - intros (page & w1 & Hl & Hr). exists (page, true), w1.
    split; [exact Hl|]. cbn [fst snd negb]. rewrite bind_returns.
    exists tt, w1. split; [reflexivity | exact Hr].
Qed.

Lemma guarded_session_returns (context : Context)
  (cookie repo_token : option pystr) (repo : pystr)
  (tok cid : option pystr) (w w' : World) :
  try_except (session context cookie repo_token repo tok cid)
    (on_error tok cid) w = (Return tt, w') <->
  session context cookie repo_token repo tok cid w = (Return tt, w').
Proof.
  unfold try_except.
  destruct (session context cookie repo_token repo tok cid w)
    as [[[]|[msg|code]] w1]; try tauto.
  destruct (on_error_exits tok cid msg w1) as [G _].
  split; [|discriminate]. intros H. rewrite H in G. discriminate.
Qed.

(** [main] returns exactly in a clean run. *)
Lemma main_returns (w : World) : fst (main w) = Return tt <-> clean_run w.
Proof.
  unfold clean_run. cbv zeta. split.
  - intros H. destruct (main w) as [r w7] eqn:E. cbn [fst] in H. subst r.
    unfold main in E.
    do 5 (apply bind_returns in E;
          let v := fresh "v" in let w0 := fresh "w0" in
          let E0 := fresh "E0" in
          destruct E as (v & w0 & E0 & E);
          unfold environ_get in E0; injection E0 as <- <-).
    cbv zeta in E.
    apply bind_returns in E. destruct E as ([] & w0 & E0 & E).
    destruct (truthy_opt (environ (script w) (lit "ZEABUR_COOKIE")))
      eqn:Hcookie; cbn [negb] in E0.
    2: { unfold bind, print, emit, sys_exit, raise in E0. discriminate. }
    injection E0 as <-. split; [reflexivity|].
    apply bind_returns in E. destruct E as ([] & w0 & E0 & E).
    unfold print, emit in E0. injection E0 as <-.
    unfold with_ in E.
    apply bind_returns in E. destruct E as ([] & w1 & Hstart & E).
    apply try_finally_returns in E. destruct E as (w6 & E & Hstop).
    apply bind_returns in E. destruct E as (b & w2 & Hlaunch & E).
    apply bind_returns in E. destruct E as (c & w3 & Hctx & E).
    apply try_finally_returns in E. destruct E as (w5 & E & Hclose).
    apply guarded_session_returns, session_returns in E.
    destruct E as (page & w4 & Hlogin & Hreport).
    exists b, c, w3, page, w4, w5, w6, w7.
    repeat split; auto. exists w1, w2. auto.
  - intros (Hcookie & b & c & w3 & page & w4 & w5 & w6 & w7
            & (w1 & w2 & Hstart & Hlaunch & Hctx)
            & Hlogin & Hreport & Hclose & Hstop).
    assert (E : main w = (Return tt, w7)); [|now rewrite E].
    unfold main.
    do 5 (apply bind_returns; eexists _, _; split; [reflexivity|]).
    cbv zeta. rewrite Hcookie. cbn [negb].
    apply bind_returns; eexists _, _; split; [reflexivity|].
    apply bind_returns; eexists _, _; split; [reflexivity|].
    unfold with_.
    apply bind_returns; eexists _, _; split; [exact Hstart|].
    apply try_finally_returns. exists w6. split; [|exact Hstop].
    apply bind_returns; eexists _, _; split; [exact Hlaunch|].
    apply bind_returns; eexists _, _; split; [exact Hctx|].
    apply try_finally_returns. exists w5. split; [|exact Hclose].
    apply guarded_session_returns, session_returns. eauto.
Qed.

(** Without the cookie [main] prints one line and leaves with 1. *)
Lemma main_without_cookie (w : World) :
  truthy_opt (environ (script w) (lit "ZEABUR_COOKIE")) = false ->
  main w = (Raise (SystemExit 1),
            log (EPrint (text "❌ 错误: ZEABUR_COOKIE 未设置")) w).
Proof.
  intros H. unfold main. run. rewrite H. reflexivity.
Qed.

(** What [main] makes of the [try] block, once it has a context. *)
Lemma main_of_session (w : World) (b : Browser) (c : Context)
  (w3 : World) :
  truthy_opt (environ (script w) (lit "ZEABUR_COOKIE")) = true ->
  started w b c w3 ->
  (forall w', session c (environ (script w) (lit "ZEABUR_COOKIE"))
                (environ (script w) (lit "REPO_TOKEN"))
                (the (environ (script w) (lit "GITHUB_REPOSITORY")))
                (environ (script w) (lit "TG_BOT_TOKEN"))
                (environ (script w) (lit "TG_CHAT_ID")) w3
              <> (Return tt, w')) ->
  fst (run w) = 1%Z.
Proof.
  intros Hcookie Hst Hno.
  destruct (exit_status_0_or_1 w) as [H0|H1]; [|exact H1].
  apply exit_status_0, main_returns in H0.
  destruct H0 as (_ & b' & c' & w3' & page & w4 & w5 & w6 & w7
                  & Hst' & Hlogin & Hreport & _).
  destruct Hst as (w1 & w2 & Hs1 & Hs2 & Hs3).
  destruct Hst' as (w1' & w2' & Hs1' & Hs2' & Hs3').
  rewrite Hs1 in Hs1'. injection Hs1' as <-.
  rewrite Hs2 in Hs2'. injection Hs2' as <- <-.
  rewrite Hs3 in Hs3'. injection Hs3' as <- <-.
  exfalso. apply (Hno w5). apply session_returns. eauto.
Qed.

End MainFacts.

(** ** Claims about the login *)

Module LoginClaims.
Import LoginFacts.

(** C1: after each navigation the URL of the page decides.  First, for
    one attempt of the loop, in any state: when the URL holds ['/login']
    the loop goes on with the next attempt and the page of this one is
    closed by then; when it does not, the loop returns [True] with the
    page, open and never closed.  Then, for the whole login: the first
    URL without ['/login'] ends it with that page, the pages of the
    attempts before it are closed, and never are two pages open at
    once. *)
Theorem login_classifies_by_url (context : Context) (max_retries : Z)
  (w : World) :
  healthy w -> fresh_handles w ->
  (forall (attempt : Z) (rest : list Z) (after : M (Page * bool))
          (u : pystr),
     navigation (script w) (navs w) = Landed u ->
     exists w' d,
       extends w w' d /\ healthy w' /\ fresh_handles w' /\
       if contains (lit "/login") u then
         for_ (attempt :: rest) (attempt_body context max_retries) after w
           = for_ rest (attempt_body context max_retries) after w' /\
         closed_in d = [next_page w] /\
         open_pages w' = open_pages w /\
         ~ In (next_page w) (open_pages w')
       else
         for_ (attempt :: rest) (attempt_body context max_retries) after w
           = (Return (next_page w, true), w') /\
         closed_in d = [] /\
         open_pages w' = next_page w :: open_pages w /\
         location w' (next_page w) = u) /\
  (forall (cookie_string : pystr) (k : nat) (u : pystr),
     k < Z.to_nat (max_retries + 1) ->
     (forall i, i < k ->
        rejected (navigation (script w) (navs w + i)) = true) ->
     navigation (script w) (navs w + k) = Landed u ->
     contains (lit "/login") u = false ->
     exists w' d,
       login_with_cookie context cookie_string max_retries w
         = (Return (next_page w + k, true), w') /\
       extends w w' d /\
       location w' (next_page w + k) = u /\
       open_pages w' = (next_page w + k) :: open_pages w /\
       closed_in d = seq (next_page w) k /\
       ~ In (next_page w + k) (closed_in d) /\
       most_open 0 d = 1).
Proof.
  intros Hh Hp. split.
  - intros attempt rest after u Hnav.
    destruct (contains (lit "/login") u) eqn:Hu.
    + destruct (round_rejected context max_retries attempt w Hh Hp)
        as (w' & d & E & Hs & _ & Hq & Ho & He & _ & Hc & _).
      { now rewrite Hnav. }
      exists w', d. split; [exact He|].
      assert (Hp' : fresh_handles w').
      { unfold fresh_handles in *. rewrite Ho, Hq.
        eapply Forall_impl; [|exact Hp]. cbn beta. lia. }
      split; [unfold healthy in *; now rewrite Hs|]. split; [exact Hp'|].
      cbn [for_]. unfold bind at 1. rewrite E.
      repeat split; auto.
      rewrite Ho. intros Hin. unfold fresh_handles in Hp.
      rewrite Forall_forall in Hp. apply Hp in Hin. lia.
    + destruct (round_accepted context max_retries attempt w u Hh Hnav Hu)
        as (w' & d & E & Hs & _ & Hq & Ho & Hl & He & _ & Hc & _).
      exists w', d. split; [exact He|].
      split; [unfold healthy in *; now rewrite Hs|]. split.
      { unfold fresh_handles in *. rewrite Ho, Hq. constructor; [lia|].
        eapply Forall_impl; [|exact Hp]. cbn beta. lia. }
      cbn [for_]. unfold bind at 1. rewrite E. repeat split; auto.
  - intros cookie_string k u Hk Hrej Hnav Hu.
    destruct (login_accepted context cookie_string max_retries w k u
                Hh Hp Hk Hrej Hnav Hu)
      as (w' & d & E & _ & Ho & Hl & He & _ & Hc & Hm).
    exists w', d. destruct (Hm 0) as [_ Hb].
    repeat split; auto. rewrite Hc, in_seq. lia.
Qed.

Lemma login_classifies_by_url_witness :
  exists w',
    login_with_cookie BrowserContext (lit "token=abc") 2
      (boot third_time_lucky) = (Return (2, true), w') /\
    open_pages w' = [2] /\
    location w' 2 = ZEABUR_DASHBOARD_URL.
Proof.
  destruct (login_classifies_by_url BrowserContext 2
              (boot third_time_lucky)) as [_ Hrun].
  - intros k. reflexivity.
  - constructor.
  - destruct (Hrun (lit "token=abc") 2 ZEABUR_DASHBOARD_URL)
      as (w' & d & E & _ & Hl & Ho & _).
    + vm_compute. lia.
    + intros [|[|i]] Hi; [reflexivity | reflexivity | lia].
    + reflexivity.
    + reflexivity.
    + exists w'. repeat split; assumption.
Defined.

(** C2: the attempts and the sleeps of a login are a beginning of:
    attempt, sleep 5 * 1, attempt, sleep 5 * 2, ..., attempt, with
    [max_retries + 1] attempts at most; with the default 2 that is
    attempt, 5 s, attempt, 10 s, attempt.  So no sleep comes before the
    first attempt, and the sleep before retry [n] lasts [5 * n] seconds.
    A login that returns [True] has ended at an attempt, after the full
    rounds (attempt, then sleep) of the attempts before it; a login that
    returns [False] has gone through the whole schedule.  With a browser
    that works the login returns, and what the navigations give decides
    which: after [k] rejected navigations and one that is accepted there
    were [k + 1] attempts with the [k] sleeps between them, and when all
    are rejected the schedule is complete. *)
Theorem login_keeps_retry_schedule (context : Context)
  (cookie_string : pystr) (max_retries : Z) (w : World) :
  let out := login_with_cookie context cookie_string max_retries w in
  let rounds k := flat_map (round max_retries) (map Z.of_nat (seq 0 k)) in
  schedule 2 = [Attempt; Pause 5; Attempt; Pause 10; Attempt] /\
  (forall n : nat,
     round max_retries (Z.of_nat n)
     = Attempt ::
       (if (Z.of_nat n <? max_retries)%Z
        then [Pause (5 * Z.of_nat (S n))] else [])) /\
  exists d,
    extends w (snd out) d /\
    (exists n, timeline d = firstn n (schedule max_retries)) /\
    (forall page w',
       out = (Return (page, true), w') ->
       exists k,
         k < Z.to_nat (max_retries + 1) /\
         timeline d = rounds k ++ [Attempt]) /\
    (forall page w',
       out = (Return (page, false), w') ->
       timeline d = schedule max_retries) /\
    (healthy w -> fresh_handles w ->
     (forall k u,
        k < Z.to_nat (max_retries + 1) ->
        (forall i, i < k ->
           rejected (navigation (script w) (navs w + i)) = true) ->
        navigation (script w) (navs w + k) = Landed u ->
        contains (lit "/login") u = false ->
        (exists page w', out = (Return (page, true), w')) /\
        timeline d = rounds k ++ [Attempt]) /\
     ((forall i, i < Z.to_nat (max_retries + 1) ->
         rejected (navigation (script w) (navs w + i)) = true) ->
      (exists page w', out = (Return (page, false), w')) /\
      timeline d = schedule max_retries)).
Proof.
  cbv zeta. split; [reflexivity|]. split.
  { intros n. unfold round.
    replace (Z.of_nat n + 1)%Z with (Z.of_nat (S n)) by lia. reflexivity. }
  destruct (login_outcome context cookie_string max_retries w)
    as (d & He & Htrue & Hfalse).
  exists d. split; [exact He|]. split; [|split; [|split]].
  - destruct (login_any context cookie_string max_retries w)
      as ((d' & n & He' & Ht') & _).
    exists n. unfold extends in *. rewrite He in He'.
    apply app_inv_head in He'. now subst d'.
  - exact Htrue.
  - exact Hfalse.
  - intros Hh Hp. split.
    + intros k u Hk Hrej Hnav Hu.
      destruct (login_accepted context cookie_string max_retries w k u
                  Hh Hp Hk Hrej Hnav Hu)
        as (w' & d' & E & _ & _ & _ & He' & Ht' & _).
      split; [rewrite E; eauto|].
      unfold extends in *. rewrite E in He. cbn [snd] in He.
      rewrite He in He'. apply app_inv_head in He'. now subst d'.
    + intros Hrej.
      destruct (login_exhausted context cookie_string max_retries w
                  Hh Hp Hrej)
        as (w' & d' & E & _ & _ & He' & Ht' & _).
      split; [rewrite E; eauto|].
      unfold extends in *. rewrite E in He. cbn [snd] in He.
      rewrite He in He'. apply app_inv_head in He'. now subst d'.
Qed.

Lemma login_keeps_retry_schedule_witness :
  exists d page w',
    login_with_cookie BrowserContext (lit "token=abc") 2
      (boot third_time_lucky) = (Return (page, true), w') /\
    extends (boot third_time_lucky) w' d /\
    timeline d = [Attempt; Pause 5; Attempt; Pause 10; Attempt].
Proof.
  destruct (login_keeps_retry_schedule BrowserContext (lit "token=abc") 2
              (boot third_time_lucky))
    as (_ & _ & d & He & _ & _ & _ & Hh).
  destruct Hh as [Haccepted _].
  - intros k. reflexivity.
  - constructor.
  - destruct (Haccepted 2 ZEABUR_DASHBOARD_URL) as ((page & w' & E) & Ht).
    + vm_compute. lia.
    + intros [|[|i]] Hi; [reflexivity | reflexivity | lia].
    + reflexivity.
    + reflexivity.
    + exists d, page, w'. rewrite E in He. repeat split; assumption.
Defined.

(** The scenario of the specification: redirected twice, then the
    dashboard, with two retries allowed. *)
Example third_time_lucky_timeline :
  exists w' d,
    login_with_cookie BrowserContext (lit "token=abc") 2
        (boot third_time_lucky) = (Return (2, true), w') /\
    extends (boot third_time_lucky) w' d /\
    timeline d = [Attempt; Pause 5; Attempt; Pause 10; Attempt] /\
    In 2 (open_pages w').
Proof.
  destruct (login_accepted BrowserContext (lit "token=abc") 2
              (boot third_time_lucky) 2 ZEABUR_DASHBOARD_URL)
    as (w' & d & E & _ & Ho & _ & He & Ht & _).
  - intros k. reflexivity.
  - constructor.
  - vm_compute. lia.
  - intros [|[|i]] Hi; [reflexivity | reflexivity | lia].
  - reflexivity.
  - reflexivity.
  - exists w', d. repeat split; auto. rewrite Ho. now left.
Qed.

(** C3: when every attempt fails, by a redirection to the login page or
    by an exception of the navigation, the login returns [False] with a
    page: one opened after the last attempt, never closed, open when the
    caller gets it.  There were [max_retries + 1] attempts, each with its
    page closed. *)
Theorem login_exhausted_returns_fresh_page (context : Context)
  (cookie_string : pystr) (max_retries : Z) (w : World) :
  healthy w -> fresh_handles w ->
  (forall i, i < Z.to_nat (max_retries + 1) ->
     rejected (navigation (script w) (navs w + i)) = true) ->
  let page := next_page w + Z.to_nat (max_retries + 1) in
  exists w' d,
    login_with_cookie context cookie_string max_retries w
      = (Return (page, false), w') /\
    extends w w' d /\
    timeline d = schedule max_retries /\
    closed_in d = seq (next_page w) (Z.to_nat (max_retries + 1)) /\
    ~ In page (open_pages w) /\
    ~ In page (closed_in d) /\
    In page (open_pages w') /\
    most_open 0 d = 1.
Proof.
  intros Hh Hp Hrej page.
  destruct (login_exhausted context cookie_string max_retries w Hh Hp Hrej)
    as (w' & d & E & _ & Ho & He & Ht & Hc & Hm).
  exists w', d. destruct (Hm 0) as [_ Hb].
  repeat split; auto.
  - intros Hin. unfold fresh_handles in Hp. rewrite Forall_forall in Hp.
    apply Hp in Hin. unfold page in Hin. lia.
  - rewrite Hc, in_seq. unfold page. lia.
  - rewrite Ho. now left.
Qed.

Lemma login_exhausted_returns_fresh_page_witness :
  let page := next_page (boot all_redirected) + Z.to_nat (2 + 1) in
  exists w' d,
    login_with_cookie BrowserContext (lit "token=abc") 2
        (boot all_redirected) = (Return (page, false), w') /\
    extends (boot all_redirected) w' d /\
    timeline d = schedule 2 /\
    closed_in d = seq (next_page (boot all_redirected)) (Z.to_nat (2 + 1)) /\
    ~ In page (open_pages (boot all_redirected)) /\
    ~ In page (closed_in d) /\
    In page (open_pages w') /\
    most_open 0 d = 1.
Proof.
  apply (login_exhausted_returns_fresh_page BrowserContext
           (lit "token=abc") 2 (boot all_redirected)).
  - intros k. reflexivity.
  - constructor.
  - intros i _. reflexivity.
Defined.

End LoginClaims.

(** ** Claims about the secret publisher *)

Module PublisherClaims.
Import PublisherFacts.



Example publish_in_fair_world :
  exists ciphertext,
    sealed fair_script repository_key (lit "a=b") = Sealed ciphertext /\
    requests_in
      (trace (snd (update_github_secret (lit "t") (lit "o") (lit "r")
                     (lit "ZEABUR_COOKIE") (lit "a=b") (boot fair_script))))
    = [key_request (lit "t") (lit "o") (lit "r");
       put_request (lit "t") (lit "o") (lit "r") (lit "ZEABUR_COOKIE")
         ciphertext (lit "1")].
Proof. eexists. split; [reflexivity|]. vm_compute. reflexivity. Qed.

End PublisherClaims.

(** ** Claims about the notifier *)

Module NotifierClaims.
Import NotifierFacts.

(** C8, as stated, fails: an answer with a status outside 2xx need not
    make [send_telegram_message] return [False]; after 300 it returns
    [True]. *)
Lemma send_text_true_after_300 :
  ~ (forall (bot chat message : pystr) (w : World),
       not_2xx (http (script w) (reqs w)) = true ->
       fst (send_telegram_message bot chat message w) = Return false).
Proof.
  intros H.
  specialize (H (lit "T") (lit "C") (lit "hello") (boot multiple_choices)
                eq_refl).
  vm_compute in H. discriminate H.
Qed.

(** C8, amended: [send_telegram_message] and [send_telegram_photo] never
    raise.  Each returns [False], after printing the failure, when the
    request raises (network error, timeout), when the answer has a 4xx
    or 5xx status, or when the file cannot be opened; each returns
    [True] otherwise.  The report of [main] tries both and returns
    whatever they answer, and the two failure reports of [main] end with
    [sys.exit(1)] whatever the message does. *)
Theorem notifier_never_raises (bot chat message photo caption : pystr)
  (tok cid : option pystr) (now : pystr) (logs : list pystr) (w : World) :
  let sent := send_telegram_message bot chat message w in
  let shown := send_telegram_photo bot chat photo caption w in
  fst sent = Return (negb (http_failed (http (script w) (reqs w)))) /\
  fst shown
    = Return (match fault (script w) (calls w) with
              | Some _ => false
              | None => negb (http_failed (http (script w) (reqs w)))
              end) /\
  (fst sent = Return false ->
   exists d e,
     extends w (snd sent)
       (d ++ [EPrint (text "Telegram 消息发送失败: " ++ e)])) /\
  (fst shown = Return false ->
   exists d e,
     extends w (snd shown)
       (d ++ [EPrint (text "Telegram 图片发送失败: " ++ e)])) /\
  fst (notify tok cid now logs w) = Return tt /\
  (truthy_opt tok && truthy_opt cid = true ->
   exists d1 r d2 d3,
     extends w (snd (notify tok cid now logs w))
       (d1 ++ EHttp r :: d2 ++ EOpenFile SCREENSHOT_PATH :: d3) /\
     url r = lit "https://api.telegram.org/bot" ++ the tok
             ++ lit "/sendMessage") /\
  fst (login_failed tok cid w) = Raise (SystemExit 1) /\
  (forall e, fst (on_error tok cid e w) = Raise (SystemExit 1)).
Proof.
  cbv zeta.
  destruct (send_telegram_message_runs bot chat message w)
    as (d1 & He1 & Hr1 & _ & _ & _ & _ & Hlog1).
  destruct (send_telegram_photo_runs bot chat photo caption w)
    as (d2 & He2 & Hr2 & _ & _ & Hlog2).
  destruct (notify_runs tok cid now logs w) as (Hn & _ & Hboth).
  repeat split; auto.
  - intros Hf. rewrite Hr1 in Hf.
    destruct (http_failed (http (script w) (reqs w))); [|discriminate].
    destruct (Hlog1 eq_refl) as (d & e & ->). now exists d, e.
  - intros Hf. destruct (Hlog2 Hf) as (d & e & ->). now exists d, e.
  - apply login_failed_exits.
  - intros e. apply on_error_exits.
Qed.

End NotifierClaims.

(** ** Claims about the run *)

Module MainClaims.
Import MainFacts.

Example fair_run_exits_0 : fst (run (boot fair_script)) = 0%Z.
Proof. vm_compute. reflexivity. Qed.

Example redirected_run_exits_1 : fst (run (boot all_redirected)) = 1%Z.
Proof. vm_compute. reflexivity. Qed.

(** C9: the process ends with 0 or 1.  It ends with 0 exactly when the
    login succeeds and nothing raises after it (nor before it, so that
    the login is reached).  It ends with 1 without the cookie, having
    printed one line and called nothing; with 1 when the login comes
    back with [False]; with 1 when the [try] block raises anything. *)
Theorem exit_status_contract (w : World) :
  let env := environ (script w) in
  (fst (run w) = 0%Z \/ fst (run w) = 1%Z) /\
  (fst (run w) = 0%Z <-> clean_run w) /\
  (~ clean_run w -> fst (run w) = 1%Z) /\
  (truthy_opt (env (lit "ZEABUR_COOKIE")) = false ->
   fst (run w) = 1%Z /\
   trace (snd (run w))
   = trace w ++ [EPrint (text "❌ 错误: ZEABUR_COOKIE 未设置")]) /\
  (forall b c w3,
     truthy_opt (env (lit "ZEABUR_COOKIE")) = true ->
     started w b c w3 ->
     (forall page w4,
        login_with_cookie c (the (env (lit "ZEABUR_COOKIE"))) 2 w3
          = (Return (page, false), w4) ->
        fst (run w) = 1%Z) /\
     (forall e,
        fst (session c (env (lit "ZEABUR_COOKIE"))
               (env (lit "REPO_TOKEN"))
               (the (env (lit "GITHUB_REPOSITORY")))
               (env (lit "TG_BOT_TOKEN")) (env (lit "TG_CHAT_ID")) w3)
          = Raise e ->
        fst (run w) = 1%Z)).
Proof.
  cbv zeta. split; [apply exit_status_0_or_1|]. split; [|split; [|split]].
  - rewrite exit_status_0. apply main_returns.
  - intros Hno. destruct (exit_status_0_or_1 w) as [H0|H1]; [|exact H1].
    apply exit_status_0, main_returns in H0. contradiction.
  - intros H. unfold run. rewrite (main_without_cookie w H). now split.
  - intros b c w3 Hcookie Hst. split.
    + intros page w4 Hlogin. apply (main_of_session w b c w3 Hcookie Hst).
      intros w' Hs. apply session_returns in Hs.
      destruct Hs as (page' & w1 & Hl & _). rewrite Hlogin in Hl.
      discriminate.
    + intros e He. apply (main_of_session w b c w3 Hcookie Hst).
      intros w' Hs. rewrite Hs in He. discriminate.
Qed.

End MainClaims.

(** ** More about the codec *)

Module CodecLaws.
Import StrFacts CodecFacts.

Lemma lstrip_all_spaces (sp : pystr) :
  forallb is_space sp = true -> lstrip sp = [].
Proof.
  intros H. rewrite <- (app_nil_r sp). now rewrite lstrip_spaces.
Qed.

Lemma rstrip_spaces (s sp : pystr) :
  forallb is_space sp = true -> rstrip (s ++ sp) = rstrip s.
Proof.
  intros H. unfold rstrip. rewrite rev_app_distr, lstrip_spaces; auto.
  rewrite forallb_forall in *. intros x Hx. apply H. now apply in_rev.
Qed.

(** Whitespace on both sides of a stripped text goes. *)
Lemma strip_padded (sp x sp' : pystr) :
  forallb is_space sp = true -> forallb is_space sp' = true ->
  strip x = x -> strip (sp ++ x ++ sp') = x.
Proof.
  intros Hsp Hsp' Hx. destruct (strip_fixed_inv x Hx) as [H1 H2].
  unfold strip. rewrite lstrip_spaces by exact Hsp.
  destruct x as [|c t].
  - cbn [app]. now rewrite lstrip_all_spaces.
  - rewrite lstrip_fixed by exact H1. rewrite rstrip_spaces by exact Hsp'.
    now apply rstrip_fixed.
Qed.

Lemma lstrip_before_mark (a b : pystr) (c : char) :
  is_space c = false -> lstrip (a ++ c :: b) = lstrip a ++ c :: b.
Proof.
  intros Hc. induction a as [|d a IH]; cbn [app lstrip].
  - now rewrite Hc.
  - destruct (is_space d); auto.
Qed.

Lemma rstrip_after_mark (a b : pystr) (c : char) :
  is_space c = false -> rstrip (a ++ c :: b) = a ++ c :: rstrip b.
Proof.
  intros Hc. unfold rstrip. rewrite rev_app_distr. cbn [rev].
  rewrite <- app_assoc. cbn [app].
  rewrite lstrip_before_mark by exact Hc.
  rewrite rev_app_distr. cbn [rev]. rewrite rev_involutive.
  now rewrite <- app_assoc.
Qed.

Lemma strip_around_mark (a b : pystr) (c : char) :
  is_space c = false -> strip (a ++ c :: b) = lstrip a ++ c :: rstrip b.
Proof.
  intros Hc. unfold strip. rewrite lstrip_before_mark by exact Hc.
  now apply rstrip_after_mark.
Qed.

Lemma strip_lstrip (s : pystr) : strip (lstrip s) = strip s.
Proof.
  unfold strip. now rewrite (lstrip_fixed (lstrip s) (lstrip_clean s)).
Qed.

Lemma lstrip_rstrip (s : pystr) : lstrip (rstrip s) = rstrip (lstrip s).
Proof.
  destruct (lstrip_cut s) as [pre [H1 Hpre]].
  destruct (rstrip_cut (lstrip s)) as [post [H2 Hpost]].
  fold (strip s) in H2.
  assert (Hs : s = pre ++ strip s ++ post).
  { rewrite H1 at 1. now rewrite H2 at 1. }
  fold (strip s). rewrite Hs at 1.
  rewrite app_assoc, rstrip_spaces by exact Hpost.
  destruct (strip s) as [|c t] eqn:E.
  - rewrite app_nil_r. rewrite <- (app_nil_l pre) at 1.
    rewrite rstrip_spaces by exact Hpre. reflexivity.
  - pose proof (strip_starts_clean s) as Hc1.
    pose proof (strip_ends_clean s) as Hc2. rewrite E in Hc1, Hc2.
    rewrite rstrip_fixed.
    + rewrite lstrip_spaces by exact Hpre. now apply lstrip_fixed.
    + unfold ends_clean in *. rewrite rev_app_distr.
      destruct (rev (c :: t)) as [|x l] eqn:R.
      * apply (f_equal (@List.length _)) in R. rewrite length_rev in R.
        discriminate.
      * exact Hc2.
Qed.

Lemma strip_rstrip (s : pystr) : strip (rstrip s) = strip s.
Proof.
  unfold strip at 1. rewrite lstrip_rstrip.
  pose proof (rstrip_ends_clean (lstrip s)) as H.
  now rewrite (rstrip_fixed (rstrip (lstrip s)) H).
Qed.

Lemma spaces_lack (sp : pystr) (c : char) :
  forallb is_space sp = true -> is_space c = false -> ~ In c sp.
Proof.
  intros H Hc Hin. rewrite forallb_forall in H. apply H in Hin. congruence.
Qed.

Lemma join_app (sep : pystr) (x : pystr) (xs : list pystr)
  (y : pystr) (ys : list pystr) :
  join sep ((x :: xs) ++ y :: ys)
  = join sep (x :: xs) ++ sep ++ join sep (y :: ys).
Proof.
  revert x. induction xs as [|z zs IH]; intros x.
  - reflexivity.
  - change (join sep ((x :: z :: zs) ++ y :: ys))
      with (x ++ sep ++ join sep ((z :: zs) ++ y :: ys)).
    rewrite IH.
    change (join sep (x :: z :: zs)) with (x ++ sep ++ join sep (z :: zs)).
    now rewrite <- !app_assoc.
Qed.

Lemma join_pairs_truthy (rs : list Cookie) :
  truthy (join (lit "; ") (map pair_text rs)) = negb (Nat.eqb (List.length rs) 0).
Proof.
  destruct rs as [|c [|c' rest]]; auto.
  - cbn [map join]. rewrite pair_text_cons. now destruct (name c).
  - change (join (lit "; ") (map pair_text (c :: c' :: rest)))
      with (pair_text c ++ lit "; "
            ++ join (lit "; ") (map pair_text (c' :: rest))).
    rewrite pair_text_cons. now destruct (name c).
Qed.

Lemma contains_here (needle rest : pystr) :
  starts_with needle (needle ++ rest) = true.
Proof.
  induction needle as [|c t IH]; cbn [app starts_with]; auto.
  now rewrite N.eqb_refl.
Qed.

Lemma contains_inside (needle pre post : pystr) :
  contains needle (pre ++ needle ++ post) = true.
Proof.
  induction pre as [|c t IH]; cbn [app].
  - destruct (needle ++ post) eqn:E; cbn [contains];
      rewrite <- E, contains_here; reflexivity.
  - cbn [contains]. rewrite IH. apply orb_true_r.
Qed.

Lemma existsb_filter {A} (f : A -> bool) (l : list A) :
  existsb f l = negb (Nat.eqb (List.length (filter f l)) 0).
Proof.
  induction l as [|x l IH]; cbn [existsb filter]; auto.
  destruct (f x); auto.
Qed.

(** X1: the records of two texts joined by a [';'] are the records of
    the first, then those of the second. *)
Theorem parse_cookies_of_concat (a b : pystr) :
  parse_cookies (a ++ lit ";" ++ b)
  = obind (parse_cookies a) (fun ra =>
    obind (parse_cookies b) (fun rb => Return (ra ++ rb))).
Proof.
  rewrite !parse_cookies_spec. cbn [obind]. unfold decode_spec.
  change (lit ";" ++ b) with (ch ";" :: b).
  now rewrite split_app_sep, flat_map_app.
Qed.

(** X2: whitespace around a piece, around its name and around its value
    is not part of the record. *)
Theorem parse_cookies_ignores_padding (sp1 sp2 sp3 sp4 n v : pystr) :
  forallb is_space sp1 = true -> forallb is_space sp2 = true ->
  forallb is_space sp3 = true -> forallb is_space sp4 = true ->
  header_safe (mkCookie n v None []) ->
  parse_cookies (sp1 ++ n ++ sp2 ++ lit "=" ++ sp3 ++ v ++ sp4)
  = Return [mkCookie n v (Some (lit ".zeabur.com")) (lit "/")].
Proof.
  intros H1 H2 H3 H4 (Hn1 & Hn2 & Hv1 & Sn & Sv). cbn [name value] in *.
  change (lit ";") with [ch ";"] in *. change (lit "=") with [ch "="] in *.
  apply lacks_char in Hn1, Hn2, Hv1.
  set (L := sp1 ++ n ++ sp2). set (R := sp3 ++ v ++ sp4).
  replace (sp1 ++ n ++ sp2 ++ [ch "="] ++ R) with (L ++ ch "=" :: R)
    by (unfold L; now rewrite <- !app_assoc).
  assert (HL : forall c, is_space c = false -> ~ In c n -> ~ In c L).
  { intros c Hc Hcn Hin. unfold L in Hin.
    apply in_app_or in Hin. destruct Hin as [Hin|Hin];
      [now apply (spaces_lack sp1 c)|].
    apply in_app_or in Hin. destruct Hin as [Hin|Hin];
      [tauto | now apply (spaces_lack sp2 c)]. }
  assert (HR : ~ In (ch ";") R).
  { intros Hin. unfold R in Hin.
    apply in_app_or in Hin. destruct Hin as [Hin|Hin];
      [now apply (spaces_lack sp3 (ch ";"))|].
    apply in_app_or in Hin. destruct Hin as [Hin|Hin];
      [tauto | now apply (spaces_lack sp4 (ch ";"))]. }
  rewrite parse_cookies_spec. unfold decode_spec.
  rewrite split_whole.
  2: { intros Hin. apply in_app_or in Hin.
       destruct Hin as [Hin|[Hin|Hin]];
         [now apply (HL (ch ";")) | discriminate | tauto]. }
  cbn [flat_map]. rewrite app_nil_r. unfold decode_piece.
  replace (contains (lit "=") (L ++ ch "=" :: R)) with true
    by (symmetry; change (lit "=") with [ch "="]; apply contains_char,
        in_elt).
  rewrite strip_around_mark by reflexivity.
  rewrite before_cut, after_cut.
  2, 3: intros Hin; apply lstrip_incl in Hin;
        now apply (HL (ch "=")) in Hin.
  rewrite strip_lstrip, strip_rstrip. unfold L, R.
  now rewrite !strip_padded.
Qed.

Lemma parse_cookies_ignores_padding_witness :
  parse_cookies (lit "  " ++ lit "token" ++ lit " " ++ lit "="
                 ++ lit " " ++ lit "abc=1" ++ lit "   ")
  = Return [mkCookie (lit "token") (lit "abc=1")
              (Some (lit ".zeabur.com")) (lit "/")].
Proof.
  apply (parse_cookies_ignores_padding (lit "  ") (lit " ") (lit " ")
           (lit "   ") (lit "token") (lit "abc=1")); try reflexivity.
  repeat split; reflexivity.
Defined.

(** X3: what [parse_cookies] returns, it reads back unchanged from the
    text [format_cookies] makes of it. *)
Theorem parse_cookies_reads_back_its_records (raw : pystr) :
  obind (parse_cookies raw)
        (fun records => parse_cookies (format_cookies records))
  = parse_cookies raw.
Proof.
  rewrite parse_cookies_spec. cbn [obind]. apply decode_spec_reparsed.
Qed.

(** X4: the text of two lists of cookies, one after the other, is the
    two texts with ['; '] between them, which is left out when one of
    the lists has no cookie of the target domain. *)
Theorem format_cookies_of_concat (a b : list Cookie) :
  format_cookies (a ++ b)
  = if existsb in_target a && existsb in_target b
    then format_cookies a ++ lit "; " ++ format_cookies b
    else format_cookies a ++ format_cookies b.
Proof.
  rewrite !existsb_filter. unfold format_cookies.
  rewrite filter_app, map_app.
  destruct (filter in_target a) as [|x xs];
    destruct (filter in_target b) as [|y ys]; cbn [List.length Nat.eqb negb
      andb map app]; rewrite ?app_nil_r; auto.
  apply join_app.
Qed.

(** X5: the text is empty exactly when no cookie has the target domain
    in its domain; a cookie without a domain does not count. *)
Theorem format_cookies_empty_iff (cookies : list Cookie) :
  truthy (format_cookies cookies) = existsb in_target cookies /\
  (forall n v p, in_target (mkCookie n v None p) = false).
Proof.
  split; [|reflexivity].
  unfold format_cookies. rewrite join_pairs_truthy.
  symmetry. apply existsb_filter.
Qed.

(** X6: the domain is matched as a substring: a cookie is kept when
    ['zeabur.com'] stands anywhere in its domain, also in the middle of
    another name. *)
Theorem in_target_is_substring_match (n v p before_ after_ : pystr) :
  in_target (mkCookie n v (Some (before_ ++ lit "zeabur.com" ++ after_)) p)
  = true /\
  format_cookies
    [mkCookie n v (Some (before_ ++ lit "zeabur.com" ++ after_)) p]
  = n ++ lit "=" ++ v.
Proof.
  assert (H : in_target
            (mkCookie n v (Some (before_ ++ lit "zeabur.com" ++ after_)) p)
          = true).
  { unfold in_target, get_domain. cbn [domain]. apply contains_inside. }
  split; [exact H|]. unfold format_cookies. cbn [filter]. now rewrite H.
Qed.

End CodecLaws.

(** ** More about the notifier and the publisher *)

Module WireLaws.

(** X7: [send_telegram_message] sends one request, whatever happens: the
    POST of the text to [sendMessage], as HTML, with a timeout of 30.
    It does nothing else but print a line when that failed. *)
Theorem send_telegram_message_sends_once (bot chat message : pystr)
  (w : World) :
  let out := send_telegram_message bot chat message w in
  exists tail,
    extends w (snd out) (EHttp (message_request bot chat message) :: tail) /\
    (tail = [] \/
     exists e, tail = [EPrint (text "Telegram 消息发送失败: " ++ e)]) /\
    reqs (snd out) = S (reqs w) /\
    calls (snd out) = calls w.
Proof.
  unfold send_telegram_message, extends. cbv zeta.
  fold (message_request bot chat message). crack.
  all: run; eexists; rewrite <- ?app_assoc; cbn [app].
  all: (split; [reflexivity|]); repeat split; eauto.
Qed.

(** X8: [send_telegram_photo] opens the file first and sends nothing
    when that raises.  Otherwise it sends one POST to [sendPhoto], with
    a timeout of 60, and closes the file, also when the request failed,
    before it prints the line about the failure. *)
Theorem send_telegram_photo_closes_file (bot chat photo caption : pystr)
  (w : World) :
  let out := send_telegram_photo bot chat photo caption w in
  exists d,
    extends w (snd out) d /\
    match fault (script w) (calls w) with
    | Some msg =>
        d = [EOpenFile photo;
             EPrint (text "Telegram 图片发送失败: " ++ msg)] /\
        fst out = Return false
    | None =>
        exists tail,
          d = [EOpenFile photo;
               EHttp (photo_request bot chat photo caption);
               ECloseFile photo] ++ tail /\
          (tail = [] \/
           exists e, tail = [EPrint (text "Telegram 图片发送失败: " ++ e)])
    end.
Proof.
  unfold send_telegram_photo, extends. cbv zeta.
  fold (photo_request bot chat photo caption). crack.
  all: run; eexists; rewrite <- ?app_assoc; cbn [app].
  all: (split; [reflexivity|]); repeat split; eauto.
  all: eexists; split; [reflexivity|]; eauto.
Qed.

(** What [update_github_secret] sends and when it returns. *)
Lemma update_github_secret_envelope
  (token owner repo secret_name secret_value : pystr) (w : World) :
  let out := update_github_secret token owner repo secret_name
               secret_value w in
  extends w (snd out)
    (EHttp (key_request token owner repo) ::
     match envelope (script w) (reqs w) secret_value with
     | Some (enc, kid) =>
         [EHttp (put_request token owner repo secret_name enc kid)]
     | None => []
     end) /\
  (fst out = Return tt <->
   exists enc kid,
     envelope (script w) (reqs w) secret_value = Some (enc, kid) /\
     http_failed (http (script w) (S (reqs w))) = false).
Proof.
  unfold update_github_secret, extends, envelope.
  fold (github_headers token).
  fold (key_request token owner repo).
  cbv zeta. crack.
  all: run; unfold http_failed, put_request.
  all: repeat match goal with
       | H : Sealed _ = _ |- _ =>
           first [discriminate H | injection H as H; subst]
       | H : SealError _ = _ |- _ =>
           first [discriminate H | injection H as H; subst]
       | H : http _ _ = _ |- _ => rewrite ?H; clear H
       | H : (_ && _)%bool = _ |- _ => rewrite ?H; clear H
       end.
  all: rewrite <- ?app_assoc; cbn [app].
  all: split; [reflexivity|].
  all: split; [try discriminate; intros _; eauto|].
  all: try (intros (enc & kid & [=] & _); fail).
  all: try (intros (enc & kid & _ & [=]); fail).
  all: auto.
Qed.

(** X9: [update_github_secret] puts exactly the envelope made of the
    answer to its GET: the value sealed with the fetched key, and the
    fetched key identifier.  Without an envelope (failed GET, no JSON,
    no ['key'] or ['key_id'], sealing error) there is no PUT.  The call
    returns exactly when there is an envelope and the PUT does not
    fail. *)
Theorem update_github_secret_puts_envelope
  (token owner repo secret_name secret_value : pystr) (w : World) :
  let out := update_github_secret token owner repo secret_name
               secret_value w in
  extends w (snd out)
    (EHttp (key_request token owner repo) ::
     match envelope (script w) (reqs w) secret_value with
     | Some (enc, kid) =>
         [EHttp (put_request token owner repo secret_name enc kid)]
     | None => []
     end) /\
  (fst out = Return tt <->
   exists enc kid,
     envelope (script w) (reqs w) secret_value = Some (enc, kid) /\
     http_failed (http (script w) (S (reqs w))) = false).
Proof.
  apply update_github_secret_envelope.
Qed.

End WireLaws.

(** ** Events of computations *)

Module TraceFacts.

Lemma requests_in_app (d1 d2 : list Event) :
  requests_in (d1 ++ d2) = requests_in d1 ++ requests_in d2.
Proof.
  induction d1 as [|e d1 IH]; simpl; auto.
  destruct e; simpl; now rewrite ?IH.
Qed.

Lemma advance_refl (w : World) : advance w w [].
Proof.
  unfold advance. cbn [requests_in List.length].
  now rewrite app_nil_r, Nat.add_0_r.
Qed.

Lemma advance_trans (w1 w2 w3 : World) (d1 d2 : list Event) :
  advance w1 w2 d1 -> advance w2 w3 d2 -> advance w1 w3 (d1 ++ d2).
Proof.
  intros (Hs1 & Ht1 & Hr1) (Hs2 & Ht2 & Hr2). repeat split.
  - congruence.
  - now rewrite Ht2, Ht1, app_assoc.
  - rewrite Hr2, Hr1, requests_in_app, length_app. lia.
Qed.

Lemma advance_unique (w w' : World) (d1 d2 : list Event) :
  advance w w' d1 -> extends w w' d2 -> d1 = d2.
Proof.
  intros (_ & H1 & _) H2. unfold extends in H2. rewrite H1 in H2.
  now apply app_inv_head in H2.
Qed.

Lemma passes_here (Q : Event -> Prop) {A} (m : M A) (w : World) :
  snd (m w) = w -> passes Q m w.
Proof. intros H. exists []. rewrite H. split; [apply advance_refl | auto]. Qed.

Lemma passes_step (Q : Event -> Prop) {A} (m : M A) (w : World)
  (e : Event) :
  Q e -> http_call e = false ->
  script (snd (m w)) = script w -> trace (snd (m w)) = trace w ++ [e] ->
  reqs (snd (m w)) = reqs w ->
  passes Q m w.
Proof.
  intros HQ He Hs Ht Hr. exists [e]. split; [|auto].
  repeat split; auto. destruct e; try discriminate; cbn; lia.
Qed.

Lemma passes_bind (Q : Event -> Prop) {A B} (m : M A) (k : A -> M B)
  (w : World) :
  passes Q m w ->
  (forall a w1, m w = (Return a, w1) -> script w1 = script w ->
                passes Q (k a) w1) ->
  passes Q (bind m k) w.
Proof.
  intros (d1 & Ha1 & Hq1) Hk. unfold passes, bind.
  destruct (m w) as [[a|e] w1] eqn:E; cbn [snd] in Ha1.
  - destruct (Hk a w1 eq_refl (proj1 Ha1)) as (d2 & Ha2 & Hq2).
    exists (d1 ++ d2). split; [now apply (advance_trans w w1)|].
    now apply Forall_app.
  - now exists d1.
Qed.

Lemma passes_try_except (Q : Event -> Prop) {A} (m : M A)
  (h : pystr -> M A) (w : World) :
  passes Q m w ->
  (forall msg w1, m w = (Raise (Exception msg), w1) ->
                  script w1 = script w -> passes Q (h msg) w1) ->
  passes Q (try_except m h) w.
Proof.
  intros (d1 & Ha1 & Hq1) Hh. unfold passes, try_except.
  destruct (m w) as [[a|[msg|code]] w1] eqn:E; cbn [snd] in Ha1.
  - now exists d1.
  - destruct (Hh msg w1 eq_refl (proj1 Ha1)) as (d2 & Ha2 & Hq2).
    exists (d1 ++ d2). split; [now apply (advance_trans w w1)|].
    now apply Forall_app.
  - now exists d1.
Qed.

Lemma passes_try_finally (Q : Event -> Prop) {A} (m : M A) (c : M unit)
  (w : World) :
  passes Q m w -> only Q c -> passes Q (try_finally m c) w.
Proof.
  intros (d1 & Ha1 & Hq1) Hc. unfold passes, try_finally.
  destruct (m w) as [r w1] eqn:E; cbn [snd] in Ha1.
  destruct (Hc w1) as (d2 & Ha2 & Hq2).
  exists (d1 ++ d2). split; [|now apply Forall_app].
  apply (advance_trans w w1); auto.
  now destruct (c w1) as [[[]|e] w2].
Qed.

Lemma only_ret (Q : Event -> Prop) {A} (a : A) : only Q (ret a).
Proof. intros w. now apply passes_here. Qed.

Lemma only_raise (Q : Event -> Prop) {A} (e : exn) : only Q (@raise A e).
Proof. intros w. now apply passes_here. Qed.

Lemma only_bind (Q : Event -> Prop) {A B} (m : M A) (k : A -> M B) :
  only Q m -> (forall a, only Q (k a)) -> only Q (bind m k).
Proof.
  intros Hm Hk w. apply passes_bind; auto. intros a w1 _ _. apply Hk.
Qed.

Lemma only_try_except (Q : Event -> Prop) {A} (m : M A)
  (h : pystr -> M A) :
  only Q m -> (forall e, only Q (h e)) -> only Q (try_except m h).
Proof.
  intros Hm Hh w. apply passes_try_except; auto. intros e w1 _ _. apply Hh.
Qed.

Lemma only_try_finally (Q : Event -> Prop) {A} (m : M A) (c : M unit) :
  only Q m -> only Q c -> only Q (try_finally m c).
Proof. intros Hm Hc w. apply passes_try_finally; auto. Qed.

Lemma only_for (Q : Event -> Prop) {A R} (items : list A)
  (body : A -> M (option R)) (after : M R) :
  (forall x, only Q (body x)) -> only Q after ->
  only Q (for_ items body after).
Proof.
  intros Hb Ha. induction items as [|x rest IH]; cbn [for_]; auto.
  apply only_bind; auto. intros [v|]; [apply only_ret | exact IH].
Qed.

Lemma only_emit (Q : Event -> Prop) (e : Event) :
  Q e -> http_call e = false -> only Q (emit e).
Proof. intros HQ He w. now apply (passes_step Q (emit e) w e). Qed.

Lemma only_print (Q : Event -> Prop) (line : pystr) :
  Q (EPrint line) -> only Q (print line).
Proof. intros HQ. now apply only_emit. Qed.

Lemma only_external (Q : Event -> Prop) (e : Event) :
  Q e -> http_call e = false -> only Q (external e).
Proof.
  intros HQ He w. apply (passes_step Q (external e) w e); auto;
    unfold external; now destruct (fault (script w) (calls w)).
Qed.

Lemma only_request (Q : Event -> Prop) (r : Request) :
  Q (EHttp r) -> only Q (request r).
Proof.
  intros HQ w. exists [EHttp r]. split; [|auto].
  unfold request, advance.
  destruct (http (script w) (reqs w)); cbn; repeat split; lia.
Qed.

Lemma only_new_page (Q : Event -> Prop) (c : Context) :
  (forall p, Q (ENewPage p)) -> only Q (new_page c).
Proof.
  intros HQ w. apply (passes_step Q (new_page c) w (ENewPage (next_page w)));
    auto; unfold new_page, external;
    now destruct (fault (script w) (calls w)).
Qed.

Lemma only_close_page (Q : Event -> Prop) (p : Page) :
  Q (EClosePage p) -> only Q (close_page p).
Proof.
  intros HQ w. apply (passes_step Q (close_page p) w (EClosePage p));
    auto; unfold close_page, external;
    now destruct (fault (script w) (calls w)).
Qed.

Lemma only_goto (Q : Event -> Prop) (p : Page) (target : pystr) :
  Q (EGoto p target) -> only Q (goto p target).
Proof.
  intros HQ w. apply (passes_step Q (goto p target) w (EGoto p target));
    auto; unfold goto; now destruct (navigation (script w) (navs w)).
Qed.

Lemma only_raise_for_status (Q : Event -> Prop) (r : Response) :
  only Q (raise_for_status r).
Proof.
  intros w. apply passes_here. unfold raise_for_status.
  now destruct (_ && _)%bool.
Qed.

Lemma only_dict_get (Q : Event -> Prop) (d : Json) (key : pystr) :
  only Q (dict_get d key).
Proof.
  intros w. apply passes_here. unfold dict_get. now destruct (lookup key d).
Qed.

Lemma only_json (Q : Event -> Prop) (r : Response) : only Q (json r).
Proof.
  intros w. apply passes_here. unfold json. now destruct (body r).
Qed.

Lemma only_seal (Q : Event -> Prop) (key plaintext : pystr) :
  only Q (seal key plaintext).
Proof.
  intros w. apply passes_here. unfold seal.
  now destruct (sealed (script w) key plaintext).
Qed.

End TraceFacts.

(** ** Events of the script *)

Module EventLaws.
Import TraceFacts NotifierFacts.

Lemma only_attempt_body (Q : Event -> Prop) (context : Context)
  (max_retries attempt : Z) :
  spares Q -> only Q (attempt_body context max_retries attempt).
Proof.
  intros HQ. unfold attempt_body.
  apply only_bind; [apply only_new_page; intros p; now apply HQ|].
  intros page. apply only_bind.
  - apply only_try_except.
    + apply only_bind; [apply only_goto; now apply HQ|]. intros _.
      apply only_bind; [apply only_external; [now apply HQ | reflexivity]|].
      intros _. apply only_bind; [intros w; now apply passes_here|].
      intros u. destruct (negb (contains (lit "/login") u)).
      * apply only_bind; [apply only_print; now apply HQ|]. intros _.
        apply only_ret.
      * apply only_bind; [apply only_print; now apply HQ|]. intros _.
        apply only_bind; [apply only_close_page; now apply HQ|]. intros _.
        apply only_ret.
    + intros e. apply only_bind; [apply only_print; now apply HQ|].
      intros _. apply only_bind; [apply only_close_page; now apply HQ|].
      intros _. apply only_ret.
  - intros [r|]; [apply only_ret|].
    apply only_bind; [|intros _; apply only_ret].
    destruct (attempt <? max_retries)%Z; [|apply only_ret]. cbv zeta.
    apply only_bind; [apply only_print; now apply HQ|]. intros _.
    apply only_emit; [now apply HQ | reflexivity].
Qed.

(** The login only drives the browser, prints and sleeps. *)
Lemma only_login (Q : Event -> Prop) (context : Context)
  (cookie_string : pystr) (max_retries : Z) :
  spares Q -> only Q (login_with_cookie context cookie_string max_retries).
Proof.
  intros HQ. unfold login_with_cookie.
  apply only_bind; [apply only_print; now apply HQ|]. intros _.
  apply only_bind; [intros w; now apply passes_here|]. intros cookies.
  apply only_bind; [apply only_external; [now apply HQ | reflexivity]|]. intros _.
  apply only_for.
  - intros x. now apply only_attempt_body.
  - apply only_bind; [apply only_print; now apply HQ|]. intros _.
    apply only_bind; [apply only_new_page; intros p; now apply HQ|].
    intros page. apply only_ret.
Qed.

Lemma only_send_message (Q : Event -> Prop) (bot chat message : pystr) :
  spares Q -> Q (EHttp (message_request bot chat message)) ->
  only Q (send_telegram_message bot chat message).
Proof.
  intros HQ Hr. unfold send_telegram_message. cbv zeta.
  apply only_try_except.
  - apply only_bind; [now apply only_request|]. intros r.
    apply only_bind; [apply only_raise_for_status|]. intros _.
    apply only_ret.
  - intros e. apply only_bind; [apply only_print; now apply HQ|].
    intros _. apply only_ret.
Qed.

Lemma only_send_photo (Q : Event -> Prop) (bot chat photo caption : pystr) :
  spares Q -> Q (EHttp (photo_request bot chat photo caption)) ->
  only Q (send_telegram_photo bot chat photo caption).
Proof.
  intros HQ Hr w. unfold send_telegram_photo. cbv zeta.
  apply passes_try_except.
  - apply passes_bind; [|intros; apply only_ret]. unfold with_.
    apply passes_bind.
    { unfold open_rb. apply only_bind; [|intros _; apply only_ret].
      apply only_external; [now apply HQ | reflexivity]. }
    intros f w1 Hopen _.
    assert (f = photo) as ->.
    { unfold open_rb, bind, external, ret in Hopen.
      destruct (fault (script w) (calls w)); now inversion Hopen. }
    apply passes_try_finally.
    + apply passes_bind; [now apply only_request|].
      intros r w2 _ _. apply only_raise_for_status.
    + apply only_emit; [now apply HQ | reflexivity].
  - intros e w1 _ _. apply only_bind; [apply only_print; now apply HQ|].
    intros _. apply only_ret.
Qed.

Lemma only_update (Q : Event -> Prop)
  (token owner repo secret_name secret_value : pystr) :
  Q (EHttp (key_request token owner repo)) ->
  (forall enc kid,
     Q (EHttp (put_request token owner repo secret_name enc kid))) ->
  only Q (update_github_secret token owner repo secret_name secret_value).
Proof.
  intros Hg Hp. unfold update_github_secret. cbv zeta.
  apply only_bind; [now apply only_request|]. intros r.
  apply only_bind; [apply only_raise_for_status|]. intros _.
  apply only_bind; [apply only_json|]. intros j.
  apply only_bind; [apply only_dict_get|]. intros key.
  apply only_bind; [apply only_seal|]. intros enc.
  apply only_bind; [apply only_dict_get|]. intros kid.
  apply only_bind; [|intros r'; apply only_raise_for_status].
  apply only_request. apply Hp.
Qed.

Lemma message_request_is_telegram (bot chat message : pystr) :
  telegram_call (EHttp (message_request bot chat message)) = true.
Proof. reflexivity. Qed.

Lemma photo_request_is_telegram (bot chat photo caption : pystr) :
  telegram_call (EHttp (photo_request bot chat photo caption)) = true.
Proof. reflexivity. Qed.

Lemma key_request_is_github (token owner repo : pystr) :
  github_call (EHttp (key_request token owner repo)) = true.
Proof. reflexivity. Qed.

Lemma put_request_is_github (token owner repo name enc kid : pystr) :
  github_call (EHttp (put_request token owner repo name enc kid)) = true.
Proof. reflexivity. Qed.

Lemma only_login_failed (Q : Event -> Prop) (tok cid : option pystr) :
  spares Q ->
  (truthy_opt tok && truthy_opt cid = true ->
   forall r, telegram_call (EHttp r) = true -> Q (EHttp r)) ->
  only Q (login_failed tok cid).
Proof.
  intros HQ Ht. unfold login_failed. cbv zeta.
  apply only_bind; [apply only_print; now apply HQ|]. intros _.
  apply only_bind; [|intros _; apply only_raise].
  destruct (truthy_opt tok && truthy_opt cid); [|apply only_ret].
  apply only_bind; [|intros _; apply only_ret].
  apply only_send_message; auto.
Qed.

Lemma only_on_error (Q : Event -> Prop) (tok cid : option pystr)
  (e : pystr) :
  spares Q ->
  (truthy_opt tok && truthy_opt cid = true ->
   forall r, telegram_call (EHttp r) = true -> Q (EHttp r)) ->
  only Q (on_error tok cid e).
Proof.
  intros HQ Ht. unfold on_error. cbv zeta.
  apply only_bind; [apply only_print; now apply HQ|]. intros _.
  apply only_bind; [|intros _; apply only_raise].
  destruct (truthy_opt tok && truthy_opt cid); [|apply only_ret].
  apply only_bind; [|intros _; apply only_ret].
  apply only_send_message; auto.
Qed.

Lemma only_notify (Q : Event -> Prop) (tok cid : option pystr)
  (now : pystr) (logs : list pystr) :
  spares Q ->
  (truthy_opt tok && truthy_opt cid = true ->
   forall r, telegram_call (EHttp r) = true -> Q (EHttp r)) ->
  only Q (notify tok cid now logs).
Proof.
  intros HQ Ht. unfold notify.
  destruct (truthy_opt tok && truthy_opt cid);
    [|apply only_print; now apply HQ].
  apply only_bind; [apply only_print; now apply HQ|]. intros _. cbv zeta.
  apply only_bind; [apply only_send_message; auto|]. intros sent.
  apply only_bind; [apply only_send_photo; auto|]. intros shown.
  destruct (sent && shown); apply only_print; now apply HQ.
Qed.

Lemma only_refresh (Q : Event -> Prop) (repo_token : option pystr)
  (repo cookie : pystr) (logs : list pystr) :
  spares Q ->
  (truthy_opt repo_token && truthy repo && truthy cookie = true ->
   forall r, github_call (EHttp r) = true -> Q (EHttp r)) ->
  only Q (refresh_secret repo_token repo cookie logs).
Proof.
  intros HQ Hg. unfold refresh_secret.
  destruct (truthy_opt repo_token && truthy repo && truthy cookie);
    [|apply only_ret].
  apply only_bind; [apply only_print; now apply HQ|]. intros _.
  apply only_bind.
  { intros w. apply passes_here. unfold unpack2.
    now destruct (split (ch "/") repo) as [|a [|b [|c l]]]. }
  intros names.
  apply only_bind; [apply only_update; intros; now apply Hg|]. intros _.
  apply only_bind; [apply only_print; now apply HQ|]. intros _.
  apply only_ret.
Qed.

Lemma passes_report (Q : Event -> Prop) (context : Context) (page : Page)
  (repo_token : option pystr) (repo : pystr) (tok cid : option pystr)
  (w : World) :
  spares Q ->
  Q (EScreenshot page SCREENSHOT_PATH) ->
  (truthy_opt tok && truthy_opt cid = true ->
   forall r, telegram_call (EHttp r) = true -> Q (EHttp r)) ->
  (truthy_opt repo_token && truthy repo
   && truthy (format_cookies (jar (script w))) = true ->
   forall r, github_call (EHttp r) = true -> Q (EHttp r)) ->
  passes Q (report context page repo_token repo tok cid) w.
Proof.
  intros HQ Hshot Ht Hg. unfold report.
  apply passes_bind; [now apply passes_here|]. intros now w1 E1 S1.
  apply passes_bind; [apply only_print; now apply HQ|]. intros [] w2 E2 S2.
  apply passes_bind; [now apply only_external|]. intros [] w3 E3 S3.
  apply passes_bind; [apply only_print; now apply HQ|]. intros [] w4 E4 S4.
  apply passes_bind.
  { unfold context_cookies.
    apply only_bind; [apply only_external; [now apply HQ|reflexivity]|].
    intros _ w5. now apply passes_here. }
  intros jar_now w5 E5 S5. cbv zeta.
  assert (jar_now = jar (script w)) as ->.
  { unfold context_cookies, bind, external in E5.
    destruct (fault (script w4) (calls w4)); inversion E5; subst.
    cbn [script log tick_call]. congruence. }
  apply passes_bind; [now apply only_refresh|]. intros logs w6 _ _.
  now apply only_notify.
Qed.

Lemma passes_session (Q : Event -> Prop) (context : Context)
  (cookie repo_token : option pystr) (repo : pystr)
  (tok cid : option pystr) (w : World) :
  spares Q ->
  (forall page w1,
     login_with_cookie context (the cookie) 2 w = (Return (page, true), w1) ->
     Q (EScreenshot page SCREENSHOT_PATH)) ->
  (truthy_opt tok && truthy_opt cid = true ->
   forall r, telegram_call (EHttp r) = true -> Q (EHttp r)) ->
  (truthy_opt repo_token && truthy repo
   && truthy (format_cookies (jar (script w))) = true ->
   forall r, github_call (EHttp r) = true -> Q (EHttp r)) ->
  passes Q (session context cookie repo_token repo tok cid) w.
Proof.
  intros HQ Hshot Ht Hg. unfold session.
  apply passes_bind; [now apply only_login|].
  intros [page ok] w1 E1 S1. cbv zeta. cbn [fst snd].
  destruct ok; cbn [negb].
  - apply passes_bind; [apply only_ret|]. intros [] w2 E2 S2.
    apply passes_report; auto.
    + now apply (Hshot page w1).
    + rewrite S2, S1. exact Hg.
  - apply passes_bind; [now apply only_login_failed|].
    intros [] w2 E2 _. destruct (login_failed_exits tok cid w1) as [G _].
    rewrite E2 in G. discriminate.
Qed.

(** The events of [main]: every one has a property [Q] that the browser
    calls have, that the Telegram requests have when Telegram is set,
    that the GitHub requests have when the refresh is due, and that the
    screenshot of the page of a successful login has. *)
Lemma passes_main (Q : Event -> Prop) (w : World) :
  spares Q ->
  (forall b c w3 page w4,
     started w b c w3 ->
     login_with_cookie c (the (environ (script w) (lit "ZEABUR_COOKIE"))) 2
       w3 = (Return (page, true), w4) ->
     Q (EScreenshot page SCREENSHOT_PATH)) ->
  (telegram_set (script w) = true ->
   forall r, telegram_call (EHttp r) = true -> Q (EHttp r)) ->
  (refresh_due (script w) = true ->
   forall r, github_call (EHttp r) = true -> Q (EHttp r)) ->
  passes Q main w.
Proof.
  intros HQ Hshot Ht Hg. unfold main.
  do 5 (apply passes_bind; [now apply passes_here|];
        let v := fresh "v" in let w0 := fresh "w0" in
        let E := fresh "E" in
        intros v w0 E _; unfold environ_get in E; injection E as <- <-).
  cbv zeta. apply passes_bind.
  { destruct (negb _); [|apply only_ret].
    apply only_bind; [apply only_print; now apply HQ|]. intros _.
    apply only_raise. }
  intros [] w0 E0 _.
  destruct (truthy_opt (environ (script w) (lit "ZEABUR_COOKIE")));
    cbn [negb] in E0.
  2: { unfold bind, print, emit, sys_exit, raise in E0. discriminate. }
  injection E0 as <-.
  apply passes_bind; [apply only_print; now apply HQ|].
  intros [] w0 E0 S0. unfold print, emit in E0. injection E0 as <-.
  unfold with_.
  apply passes_bind; [apply only_external; [now apply HQ|reflexivity]|].
  intros [] w1 E1 S1.
  apply passes_try_finally;
    [|apply only_external; [now apply HQ|reflexivity]].
  apply passes_bind.
  { unfold launch. apply only_bind; [|intros _; apply only_ret].
    apply only_external; [now apply HQ|reflexivity]. }
  intros b w2 E2 S2. apply passes_bind.
  { unfold new_context. apply only_bind; [|intros _; apply only_ret].
    apply only_external; [now apply HQ|reflexivity]. }
  intros c w3 E3 S3.
  apply passes_try_finally;
    [|apply only_external; [now apply HQ|reflexivity]].
  assert (Hs : script w3 = script w) by congruence.
  apply passes_try_except.
  - apply passes_session; auto.
    + intros page w4 Hl. apply (Hshot b c w3 page w4); auto.
      exists w1, w2. auto.
    + rewrite Hs. exact Hg.
  - intros msg w4 _ _. now apply only_on_error.
Qed.

End EventLaws.

(** ** What a run does and does not do *)

Module RunLaws.
Import TraceFacts EventLaws.

Lemma starts_with_split (p u : pystr) :
  starts_with p u = true -> exists rest, u = p ++ rest.
Proof.
  revert u. induction p as [|c p IH]; intros u H.
  - now exists u.
  - destruct u as [|d u]; [discriminate|]. cbn [starts_with] in H.
    apply andb_true_iff in H. destruct H as [Hc H].
    apply N.eqb_eq in Hc. subst d.
    destruct (IH u H) as [rest ->]. now exists rest.
Qed.

Lemma telegram_is_not_github (e : Event) :
  telegram_call e = true -> github_call e = false.
Proof.
  destruct e; try discriminate. cbn [telegram_call github_call].
  intros H. apply starts_with_split in H. destruct H as [rest ->].
  reflexivity.
Qed.

Lemma github_is_not_telegram (e : Event) :
  github_call e = true -> telegram_call e = false.
Proof.
  destruct e; try discriminate. cbn [telegram_call github_call].
  intros H. apply starts_with_split in H. destruct H as [rest ->].
  reflexivity.
Qed.

Lemma passes_extends (Q : Event -> Prop) {A} (m : M A) (w : World) :
  passes Q m w -> exists d, extends w (snd (m w)) d /\ Forall Q d.
Proof. intros (d & (_ & H & _) & HQ). now exists d. Qed.

(** X10: when the refresh is not due (no [REPO_TOKEN], no
    [GITHUB_REPOSITORY], or no cookie of the target domain in the
    browser), a run sends no request to GitHub, whatever else happens. *)
Theorem main_skips_github (w : World) :
  refresh_due (script w) = false ->
  exists d,
    extends w (snd (main w)) d /\
    Forall (fun e => github_call e = false) d.
Proof.
  intros Hdue. apply passes_extends, passes_main.
  - intros e He _. now destruct e.
  - reflexivity.
  - intros _ r. apply telegram_is_not_github.
  - congruence.
Qed.

Lemma main_skips_github_witness :
  exists d,
    extends (boot fair_script) (snd (main (boot fair_script))) d /\
    Forall (fun e => github_call e = false) d.
Proof. apply (main_skips_github (boot fair_script)). reflexivity. Defined.

(** X11: without [TG_BOT_TOKEN] or [TG_CHAT_ID] a run sends no request
    to Telegram, whatever else happens. *)
Theorem main_skips_telegram (w : World) :
  telegram_set (script w) = false ->
  exists d,
    extends w (snd (main w)) d /\
    Forall (fun e => telegram_call e = false) d.
Proof.
  intros Hset. apply passes_extends, passes_main.
  - intros e He _. now destruct e.
  - reflexivity.
  - congruence.
  - intros _ r. apply github_is_not_telegram.
Qed.

Lemma main_skips_telegram_witness :
  exists d,
    extends (boot fair_script) (snd (main (boot fair_script))) d /\
    Forall (fun e => telegram_call e = false) d.
Proof. apply (main_skips_telegram (boot fair_script)). reflexivity. Defined.


(** X13: a run takes a screenshot only of the page that
    [login_with_cookie] returned with [True], and only to
    [SCREENSHOT_PATH]. *)
Theorem main_screenshot_needs_login (w : World) :
  exists d,
    extends w (snd (main w)) d /\
    forall p file,
      In (EScreenshot p file) d ->
      file = SCREENSHOT_PATH /\
      exists b c w3 w4,
        started w b c w3 /\
        login_with_cookie c
          (the (environ (script w) (lit "ZEABUR_COOKIE"))) 2 w3
        = (Return (p, true), w4).
Proof.
  set (Q := fun e =>
              match e with
              | EScreenshot p file =>
                  file = SCREENSHOT_PATH /\
                  exists b c w3 w4,
                    started w b c w3 /\
                    login_with_cookie c
                      (the (environ (script w) (lit "ZEABUR_COOKIE"))) 2 w3
                    = (Return (p, true), w4)
              | _ => True
              end).
  destruct (passes_extends Q main w) as (d & He & Hd).
  - apply passes_main.
    + intros e _ He. destruct e; try exact I. discriminate.
    + intros b c w3 page w4 Hst Hl. split; [reflexivity|].
      now exists b, c, w3, w4.
    + intros _ r _. exact I.
    + intros _ r _. exact I.
  - exists d. split; [exact He|]. intros p file Hin.
    rewrite Forall_forall in Hd. exact (Hd _ Hin).
Qed.

End RunLaws.

(** ** More about the login *)

Module LoginLaws.
Import LoginFacts TraceFacts EventLaws.

Lemma slept_app (l1 l2 : list Tick) :
  slept (l1 ++ l2) = (slept l1 + slept l2)%Z.
Proof.
  induction l1 as [|t l1 IH]; cbn [app slept]; auto.
  destruct t; rewrite IH; lia.
Qed.

Lemma tries_app (l1 l2 : list Tick) :
  tries (l1 ++ l2) = tries l1 + tries l2.
Proof.
  induction l1 as [|t l1 IH]; cbn [app tries]; auto.
  destruct t; rewrite IH; lia.
Qed.

(** The rounds of the schedule, up to attempt [k]. *)
Lemma rounds_total (max_retries : Z) (k : nat) :
  k = 0 \/ (Z.of_nat k <= max_retries + 1)%Z ->
  let ticks := flat_map (round max_retries) (map Z.of_nat (seq 0 k)) in
  let m := Z.min (Z.of_nat k) (Z.max 0 max_retries) in
  tries ticks = k /\
  (0 <= slept ticks)%Z /\
  (2 * slept ticks = 5 * m * (m + 1))%Z.
Proof.
  cbv zeta. induction k as [|k IH]; intros Hk.
  - cbn [seq map flat_map tries slept]. split; [reflexivity|].
    split; [lia|]. rewrite Z.min_l by lia. reflexivity.
  - rewrite seq_S, map_app, flat_map_app, tries_app, slept_app.
    destruct IH as (It & Ip & Is); [lia|].
    rewrite Z.max_r in * by lia.
    rewrite Z.min_l in Is by lia.
    set (ticks := flat_map (round max_retries) (map Z.of_nat (seq 0 k)))
      in *.
    cbn [Nat.add map flat_map app]. unfold round.
    destruct (Z.ltb_spec (Z.of_nat k) max_retries) as [Hlt|Hge];
      cbn [app tries slept]; (split; [lia|]); (split; [lia|]).
    + rewrite Z.min_l by lia. nia.
    + rewrite Z.min_r by lia.
      replace max_retries with (Z.of_nat k) by lia. nia.
Qed.

Lemma firstn_ticks (l : list Tick) (n : nat) :
  Forall (fun t => match t with Pause s => (0 <= s)%Z | Attempt => True end)
         l ->
  tries (firstn n l) <= tries l /\
  (0 <= slept (firstn n l) <= slept l)%Z.
Proof.
  intros H. revert n. induction H as [|t l Ht _ IH]; intros n.
  - rewrite firstn_nil. cbn. lia.
  - destruct n as [|n]; cbn [firstn tries slept].
    + assert (0 <= slept l)%Z by (specialize (IH 0); cbn in IH; lia).
      destruct t; lia.
    + specialize (IH n). destruct t; lia.
Qed.

Lemma schedule_pauses (max_retries : Z) :
  Forall (fun t => match t with Pause s => (0 <= s)%Z | Attempt => True end)
         (schedule max_retries).
Proof.
  unfold schedule, range. apply Forall_flat_map, Forall_forall.
  intros a Ha. apply in_map_iff in Ha. destruct Ha as (i & <- & _).
  unfold round. destruct (_ <? _)%Z; repeat constructor. lia.
Qed.

(** X14: whatever the environment does, a login makes at most
    [max_retries + 1] navigations and sleeps at most
    [5 * (1 + ... + max_retries)] seconds in all: 3 navigations and 15
    seconds with the default; none of either when [max_retries] is
    negative. *)
Theorem login_sleeps_at_most (context : Context) (cookie_string : pystr)
  (max_retries : Z) (w : World) :
  exists d,
    extends w (snd (login_with_cookie context cookie_string max_retries w))
      d /\
    tries (timeline d) <= Z.to_nat (max_retries + 1) /\
    (0 <= 2 * slept (timeline d)
       <= 5 * Z.max 0 max_retries * (Z.max 0 max_retries + 1))%Z.
Proof.
  destruct (login_any context cookie_string max_retries w)
    as ((d & n & He & Ht) & _).
  exists d. split; [exact He|]. rewrite Ht.
  destruct (firstn_ticks (schedule max_retries) n
              (schedule_pauses max_retries)) as [H1 H2].
  destruct (rounds_total max_retries (Z.to_nat (max_retries + 1)))
    as (Rt & Rp & Rs); [lia|].
  unfold schedule, range in *. cbv zeta in *. rewrite Rt in H1.
  split; [exact H1|].
  rewrite Z.min_r in Rs by lia. lia.
Qed.

(** X15: a login hands the decoded cookies to the browser before it
    opens a page or navigates: its first browser call is [add_cookies]
    with the records of [parse_cookies].  When that call raises, the
    login raises the same and does nothing more. *)
Theorem login_adds_cookies_first (context : Context) (cookie_string : pystr)
  (max_retries : Z) (w : World) :
  let out := login_with_cookie context cookie_string max_retries w in
  exists cookies d,
    parse_cookies cookie_string = Return cookies /\
    extends w (snd out)
      (EPrint (text "🍪 尝试 Cookie 登录...") :: EAddCookies cookies :: d) /\
    (forall msg,
       fault (script w) (calls w) = Some msg ->
       d = [] /\ fst out = Raise (Exception msg)).
Proof.
  cbv zeta. exists (decode_spec cookie_string).
  unfold login_with_cookie. rewrite CodecFacts.parse_cookies_spec.
  set (after := (print (text "❌ Cookie 已过期") ;;
                 page <- new_page context ;; ret (page, false))).
  assert (Hafter : quiet after).
  { intros w0. unfold after, extends. crack.
    all: run; repeat split; try discriminate.
    all: eexists; rewrite <- ?app_assoc; split; reflexivity. }
  run. destruct (fault (script w) (calls w)) as [msg|]; run.
  - exists []. split; [reflexivity|]. unfold extends. run.
    rewrite <- app_assoc. split; [reflexivity|].
    intros msg' [= <-]. now split.
  - match goal with
    | |- context [for_ ?items ?body after ?w0] =>
        destruct (rounds_any context max_retries after items w0 Hafter)
          as ((d & n & He & _) & _)
    end.
    exists d. split; [reflexivity|]. unfold extends in *. settle.
    rewrite He, <- !app_assoc. split; [reflexivity|]. discriminate.
Qed.

End LoginLaws.

(** ** The outcome of a run *)

Module OutcomeLaws.
Import NotifierFacts PublisherFacts LoginFacts MainFacts TraceFacts.
Import EventLaws WireLaws.

(** The [try] statement of [main] with its [except] clause. *)
Local Abbreviation guarded w context :=
  (try_except
     (session context (environ (script w) (lit "ZEABUR_COOKIE"))
        (environ (script w) (lit "REPO_TOKEN"))
        (the (environ (script w) (lit "GITHUB_REPOSITORY")))
        (environ (script w) (lit "TG_BOT_TOKEN"))
        (environ (script w) (lit "TG_CHAT_ID")))
     (on_error (environ (script w) (lit "TG_BOT_TOKEN"))
        (environ (script w) (lit "TG_CHAT_ID")))).

Lemma bind_run {A B} (m : M A) (k : A -> M B) (w w1 : World) (a : A) :
  m w = (Return a, w1) -> bind m k w = k a w1.
Proof. intros H. unfold bind. now rewrite H. Qed.

Lemma bind_stops {A B} (m : M A) (k : A -> M B) (w w1 : World) (e : exn) :
  m w = (Raise e, w1) -> bind m k w = (Raise e, w1).
Proof. intros H. unfold bind. now rewrite H. Qed.

Lemma finally_external {A} (m : M A) (e : Event) (w : World) :
  trace (snd (try_finally m (external e) w)) = trace (snd (m w)) ++ [e].
Proof.
  unfold try_finally, external. destruct (m w) as [r w1]. cbv zeta.
  destruct (fault (script w1) (calls w1)); reflexivity.
Qed.

Lemma finally_run {A} (m : M A) (c : M unit) (w w1 : World)
  (r : outcome A) :
  m w = (r, w1) ->
  try_finally m c w
  = match c w1 with
    | (Return _, w2) => (r, w2)
    | (Raise e, w2) => (Raise e, w2)
    end.
Proof. intros H. unfold try_finally. now rewrite H. Qed.

Lemma requests_in_none (d : list Event) :
  Forall (fun e => http_call e = false) d -> requests_in d = [].
Proof.
  induction 1 as [|e d He _ IH]; [reflexivity|].
  destruct e; cbn [requests_in http_call] in *; auto. discriminate.
Qed.

Lemma spares_any : spares (fun _ => True).
Proof. intros e _ _. exact I. Qed.

(** The events of the guarded [try] statement come after those of the
    world it starts in. *)
Lemma guarded_advance (w : World) (c : Context) (w3 : World) :
  exists d, advance w3 (snd (guarded w c w3)) d.
Proof.
  assert (H : passes (fun _ => True) (guarded w c) w3).
  { apply passes_try_except.
    - apply passes_session; first [exact spares_any | intros; exact I].
    - intros msg w4 _ _.
      apply only_on_error; first [exact spares_any | intros; exact I]. }
  destruct H as (d & Ha & _). now exists d.
Qed.

(** [main], once the cookie is there. *)
Lemma main_with_cookie (w : World) :
  truthy_opt (environ (script w) (lit "ZEABUR_COOKIE")) = true ->
  main w
  = with_ start_playwright stop_playwright (fun _ =>
      browser <- launch ;;
      context <- new_context browser ;;
      try_finally (guarded w context) (close_browser browser))
      (log (EPrint (text "🚀 启动浏览器...")) w).
Proof.
  intros Hcookie. unfold main.
  do 5 (erewrite bind_run by reflexivity; cbv beta).
  cbv zeta. rewrite Hcookie. cbn [negb].
  erewrite (bind_run (ret tt)) by reflexivity.
  erewrite (bind_run (print _)) by reflexivity.
  reflexivity.
Qed.

(** The events of a run that got a browser context: those of the guarded
    [try] statement, then the browser is closed and Playwright stopped. *)
Lemma main_trace (w : World) (b : Browser) (c : Context) (w3 : World) :
  truthy_opt (environ (script w) (lit "ZEABUR_COOKIE")) = true ->
  started w b c w3 ->
  trace (snd (main w))
  = trace (snd (guarded w c w3)) ++ [ECloseBrowser; EStopPlaywright].
Proof.
  intros Hcookie (w1 & w2 & Hstart & Hlaunch & Hctx).
  rewrite main_with_cookie by exact Hcookie.
  unfold with_. rewrite (bind_run _ _ _ _ _ Hstart).
  unfold stop_playwright. rewrite finally_external.
  rewrite (bind_run _ _ _ _ _ Hlaunch), (bind_run _ _ _ _ _ Hctx).
  unfold close_browser. rewrite finally_external.
  now rewrite <- app_assoc.
Qed.

(** With a browser that works [main] gets its context, and nothing else
    has happened by then. *)
Lemma healthy_started (w : World) :
  healthy w ->
  exists w3,
    started w Chromium BrowserContext w3 /\
    script w3 = script w /\ navs w3 = navs w /\
    next_page w3 = next_page w /\ open_pages w3 = open_pages w /\
    reqs w3 = reqs w /\
    extends w w3 [EPrint (text "🚀 启动浏览器..."); EStartPlaywright;
                  ELaunch; ENewContext].
Proof.
  intros Hf. unfold healthy in Hf. eexists. split.
  - eexists _, _. split; [|split].
    + unfold start_playwright. run. rewrite Hf. reflexivity.
    + unfold launch. run. rewrite Hf. reflexivity.
    + unfold new_context. run. rewrite Hf. reflexivity.
  - unfold extends. cbn. rewrite <- !app_assoc. repeat split.
Qed.

Lemma started_unique (w : World) (b b' : Browser) (c c' : Context)
  (w3 w3' : World) :
  started w b c w3 -> started w b' c' w3' ->
  b' = b /\ c' = c /\ w3' = w3.
Proof.
  intros (w1 & w2 & Hs1 & Hs2 & Hs3) (w1' & w2' & Hs1' & Hs2' & Hs3').
  rewrite Hs1 in Hs1'. injection Hs1' as <-.
  rewrite Hs2 in Hs2'. injection Hs2' as <- <-.
  rewrite Hs3 in Hs3'. injection Hs3' as <- <-.
  repeat split.
Qed.

(** A login sends no request and takes no screenshot. *)
Lemma login_is_local (c : Context) (cookie : pystr) (max_retries : Z)
  (w : World) :
  exists d,
    advance w (snd (login_with_cookie c cookie max_retries w)) d /\
    requests_in d = [] /\
    Forall (fun e => is_screenshot e = false) d.
Proof.
  destruct (only_login
              (fun e => http_call e = false /\ is_screenshot e = false)
              c cookie max_retries (fun e H1 H2 => conj H1 H2) w)
    as (d & Ha & HQ).
  exists d. split; [exact Ha|]. split.
  - apply requests_in_none. eapply Forall_impl; [|exact HQ].
    cbn beta. tauto.
  - eapply Forall_impl; [|exact HQ]. cbn beta. tauto.
Qed.

(** *** The secret *)

(** When the refresh of the secret returns. *)
Lemma refresh_secret_returns (repo_token : option pystr)
  (repo cookie : pystr) (logs : list pystr) (w : World) :
  (exists logs' w', refresh_secret repo_token repo cookie logs w
                    = (Return logs', w')) <->
  (truthy_opt repo_token && truthy repo && truthy cookie = true ->
   (exists owner name, split (ch "/") repo = [owner; name]) /\
   exists enc kid,
     envelope (script w) (reqs w) cookie = Some (enc, kid) /\
     http_failed (http (script w) (S (reqs w))) = false).
Proof.
  unfold refresh_secret.
  destruct (truthy_opt repo_token && truthy repo && truthy cookie).
  2: { split; [discriminate|]. intros _. now exists logs, w. }
  split.
  - intros (logs' & w' & H) _.
    apply bind_returns in H. destruct H as ([] & w0 & E0 & H).
    unfold print, emit in E0. injection E0 as <-.
    apply bind_returns in H. destruct H as ([owner name] & w0 & E0 & H).
    unfold unpack2 in E0.
    destruct (split (ch "/") repo) as [|x [|y [|z l]]];
      try discriminate E0.
    unfold ret in E0. injection E0 as <- <- <-. cbn [fst snd] in H.
    split; [eauto|].
    apply bind_returns in H. destruct H as ([] & w1 & E1 & _).
    pose proof (update_github_secret_envelope (the repo_token) x y
                  (lit "ZEABUR_COOKIE") cookie
                  (log (EPrint (text "🔄 正在更新 Cookie...")) w))
      as [_ Hiff].
    rewrite E1 in Hiff. cbn [fst] in Hiff. settle. now apply Hiff.
  - intros H.
    destruct (H eq_refl) as ((owner & name & Hsp) & enc & kid & Henv & Hput).
    pose proof (update_github_secret_envelope (the repo_token) owner name
                  (lit "ZEABUR_COOKIE") cookie
                  (log (EPrint (text "🔄 正在更新 Cookie...")) w))
      as [_ Hiff].
    destruct (update_github_secret (the repo_token) owner name
                (lit "ZEABUR_COOKIE") cookie
                (log (EPrint (text "🔄 正在更新 Cookie...")) w))
      as [r w1] eqn:E.
    cbn [fst] in Hiff. settle.
    assert (Hr : r = Return tt) by (apply Hiff; eauto). subst r.
    eexists _, _.
    apply bind_returns. eexists _, _. split; [reflexivity|].
    apply bind_returns. eexists (owner, name), _. split.
    { rewrite Hsp. reflexivity. }
    cbn [fst snd]. apply bind_returns. exists tt, w1. split; [exact E|].
    apply bind_returns. eexists _, _. split; reflexivity.
Qed.

Lemma refresh_secret_script (repo_token : option pystr)
  (repo cookie : pystr) (logs : list pystr) (w : World) :
  script (snd (refresh_secret repo_token repo cookie logs w)) = script w.
Proof.
  destruct (only_refresh (fun _ => True) repo_token repo cookie logs)
    with (w := w) as (d & (Hs & _) & _);
    first [exact spares_any | intros; exact I | idtac].
  exact Hs.
Qed.

(** When the part of [main] after the login returns, with a browser
    that works. *)
Lemma report_returns (context : Context) (page : Page)
  (repo_token : option pystr) (repo : pystr) (tok cid : option pystr)
  (w : World) :
  healthy w ->
  (exists w', report context page repo_token repo tok cid w
              = (Return tt, w') /\ script w' = script w) <->
  (truthy_opt repo_token && truthy repo
   && truthy (format_cookies (jar (script w))) = true ->
   (exists owner name, split (ch "/") repo = [owner; name]) /\
   exists enc kid,
     envelope (script w) (reqs w) (format_cookies (jar (script w)))
       = Some (enc, kid) /\
     http_failed (http (script w) (S (reqs w))) = false).
Proof.
  intros Hf. unfold healthy in Hf.
  assert (Hr : exists w2,
    script w2 = script w /\ reqs w2 = reqs w /\
    report context page repo_token repo tok cid w =
    bind (refresh_secret repo_token repo
            (format_cookies (jar (script w)))
            [text "✅ 已访问: 控制台 (" ++ ZEABUR_DASHBOARD_URL ++ lit ")"])
         (fun logs => notify tok cid (clock (script w)) logs) w2).
  { unfold report.
    erewrite bind_run by reflexivity. cbv beta.
    erewrite bind_run by reflexivity. cbv beta.
    erewrite bind_run
      by (unfold screenshot, external; settle; rewrite Hf; reflexivity).
    erewrite bind_run by reflexivity. cbv beta zeta.
    erewrite bind_run
      by (unfold context_cookies, external, bind; settle; rewrite Hf;
          reflexivity).
    cbv beta. settle.
    eexists. split; [|split]. 3: reflexivity. all: reflexivity. }
  destruct Hr as (w2 & Hs2 & Hq2 & ->).
  pose proof (refresh_secret_returns repo_token repo
                (format_cookies (jar (script w)))
                [text "✅ 已访问: 控制台 (" ++ ZEABUR_DASHBOARD_URL
                 ++ lit ")"] w2) as Hrf.
  rewrite Hs2, Hq2 in Hrf. rewrite <- Hrf.
  split.
  - intros (w' & H & _). apply bind_returns in H.
    destruct H as (logs & w3 & E & _). eauto.
  - intros (logs & w3 & E).
    destruct (notify_runs tok cid (clock (script w)) logs w3)
      as (Hn & Hsn & _).
    destruct (notify tok cid (clock (script w)) logs w3) as [r w4] eqn:En.
    cbn [fst snd] in *. subst r. exists w4. split.
    + apply bind_returns. eauto.
    + rewrite Hsn, <- Hs2.
      pose proof (refresh_secret_script repo_token repo
                    (format_cookies (jar (script w)))
                    [text "✅ 已访问: 控制台 (" ++ ZEABUR_DASHBOARD_URL
                     ++ lit ")"] w2) as Hss.
      now rewrite E in Hss.
Qed.

(** *** The failed login *)

(** What [main] does when the login has failed: one line, one message
    to Telegram where it is configured. *)
Lemma login_failed_wire (tok cid : option pystr) (w : World) :
  exists d,
    extends w (snd (login_failed tok cid w)) d /\
    Forall (fun e => is_screenshot e = false) d /\
    requests_in d
    = if truthy_opt tok && truthy_opt cid
      then [message_request (the tok) (the cid)
              (text "❌ Cookie 登录失败" ++ nl
               ++ text "💡 请更新 ZEABUR_COOKIE")]
      else [].
Proof.
  unfold login_failed, send_telegram_message, extends. cbv zeta.
  fold (message_request (the tok) (the cid)
          (text "❌ Cookie 登录失败" ++ nl ++ text "💡 请更新 ZEABUR_COOKIE")).
  crack.
  all: run; eexists; rewrite <- ?app_assoc; cbn [app].
  all: (split; [reflexivity|]); split; [repeat constructor | reflexivity].
Qed.

Lemma guarded_after_failed_login (w : World) (c : Context) (page : Page)
  (w3 w4 : World) :
  login_with_cookie c (the (environ (script w) (lit "ZEABUR_COOKIE"))) 2 w3
    = (Return (page, false), w4) ->
  snd (guarded w c w3)
  = snd (login_failed (environ (script w) (lit "TG_BOT_TOKEN"))
           (environ (script w) (lit "TG_CHAT_ID")) w4).
Proof.
  intros Hl. unfold try_except, session.
  rewrite (bind_run _ _ _ _ _ Hl). cbn [fst snd negb].
  destruct (login_failed_exits (environ (script w) (lit "TG_BOT_TOKEN"))
              (environ (script w) (lit "TG_CHAT_ID")) w4) as [G _].
  destruct (login_failed _ _ w4) as [r w5] eqn:E. cbn [fst] in G. subst r.
  now rewrite (bind_stops _ _ _ _ _ E).
Qed.

(** X16: once it has started, Playwright is stopped at the end of every
    run, and a browser that gave a context is closed just before that:
    whatever was raised on the way, [sys.exit] too.  When [new_context]
    raises, the browser that was launched is not closed by the script:
    only Playwright is stopped. *)
Theorem main_releases_browser (w : World) :
  truthy_opt (environ (script w) (lit "ZEABUR_COOKIE")) = true ->
  (forall b c w3,
     started w b c w3 ->
     exists d,
       extends w3 (snd (main w))
         (d ++ [ECloseBrowser; EStopPlaywright])) /\
  (forall w1 b w2 msg,
     start_playwright (log (EPrint (text "🚀 启动浏览器...")) w)
       = (Return tt, w1) ->
     launch w1 = (Return b, w2) ->
     fault (script w2) (calls w2) = Some msg ->
     extends w2 (snd (main w)) [ENewContext; EStopPlaywright] /\
     fst (run w) = 1%Z).
Proof.
  intros Hcookie. split.
  - intros b c w3 Hst.
    destruct (guarded_advance w c w3) as (d & _ & Ht & _).
    exists d. unfold extends.
    rewrite (main_trace w b c w3 Hcookie Hst), Ht.
    now rewrite <- app_assoc.
  - intros w1 b w2 msg Hstart Hlaunch Hfault. unfold run, extends.
    rewrite main_with_cookie by exact Hcookie. unfold with_.
    rewrite (bind_run _ _ _ _ _ Hstart). cbv beta.
    assert (Hblock :
      (browser <- launch ;;
       context <- new_context browser ;;
       try_finally (guarded w context) (close_browser browser)) w1
      = (Raise (Exception msg), log ENewContext (tick_call w2))).
    { rewrite (bind_run _ _ _ _ _ Hlaunch). apply bind_stops.
      unfold new_context. run. now rewrite Hfault. }
    rewrite (finally_run _ _ _ _ _ Hblock).
    unfold stop_playwright, external. cbv zeta. settle.
    destruct (fault (script w2) (S (calls w2)));
      cbn [fst snd exit_status]; settle;
      (split; [now rewrite <- app_assoc | reflexivity]).
Qed.

Lemma main_releases_browser_witness :
  exists d,
    extends
      (log ENewContext (tick_call (log ELaunch (tick_call
         (log EStartPlaywright (tick_call
            (log (EPrint (text "🚀 启动浏览器...")) (boot fair_script))))))))
      (snd (main (boot fair_script)))
      (d ++ [ECloseBrowser; EStopPlaywright]).
Proof.
  destruct (main_releases_browser (boot fair_script) eq_refl) as [H _].
  apply (H Chromium BrowserContext).
  eexists _, _. repeat split.
Defined.

(** X17: with a browser that works and a login that is accepted within
    the three attempts, the run ends with status 0 exactly when the
    refresh of the secret is not due, or [GITHUB_REPOSITORY] has two
    parts around one ['/'], the public key could be got and sealed, and
    the PUT was not refused.  What Telegram answers plays no part. *)
Theorem healthy_run_exit_status (w : World) (k : nat) (u : pystr) :
  healthy w -> fresh_handles w ->
  truthy_opt (environ (script w) (lit "ZEABUR_COOKIE")) = true ->
  k < 3 ->
  (forall i, i < k ->
     rejected (navigation (script w) (navs w + i)) = true) ->
  navigation (script w) (navs w + k) = Landed u ->
  contains (lit "/login") u = false ->
  (fst (run w) = 0%Z <->
   (refresh_due (script w) = true ->
    (exists owner name,
       split (ch "/") (the (environ (script w) (lit "GITHUB_REPOSITORY")))
       = [owner; name]) /\
    exists enc kid,
      envelope (script w) (reqs w) (format_cookies (jar (script w)))
        = Some (enc, kid) /\
      http_failed (http (script w) (S (reqs w))) = false)).
Proof.
  intros Hh Hp Hcookie Hk Hrej Hnav Hu.
  destruct (healthy_started w Hh)
    as (w3 & Hst & Hs3 & Hn3 & Hq3 & Ho3 & Hr3 & _).
  destruct (login_accepted BrowserContext
              (the (environ (script w) (lit "ZEABUR_COOKIE"))) 2 w3 k u)
    as (w4 & d & Hl & Hs4 & _); auto.
  { unfold healthy in *. now rewrite Hs3. }
  { unfold fresh_handles in *. now rewrite Ho3, Hq3. }
  { rewrite Hs3, Hn3. exact Hrej. }
  { now rewrite Hs3, Hn3. }
  assert (Hr4 : reqs w4 = reqs w).
  { destruct (login_is_local BrowserContext
                (the (environ (script w) (lit "ZEABUR_COOKIE"))) 2 w3)
      as (d' & (_ & _ & Hr) & Hnone & _).
    rewrite Hl, Hnone in Hr. cbn [snd List.length] in Hr. lia. }
  assert (Hh4 : healthy w4).
  { unfold healthy in *. now rewrite Hs4, Hs3. }
  pose proof (report_returns BrowserContext (next_page w3 + k)
                (environ (script w) (lit "REPO_TOKEN"))
                (the (environ (script w) (lit "GITHUB_REPOSITORY")))
                (environ (script w) (lit "TG_BOT_TOKEN"))
                (environ (script w) (lit "TG_CHAT_ID")) w4 Hh4) as Hrep.
  rewrite Hr4, Hs4, Hs3 in Hrep. unfold refresh_due.
  rewrite <- Hrep, exit_status_0, main_returns. unfold clean_run. cbv zeta.
  split.
  - intros (_ & b & c & w3' & page & w4' & w5 & w6 & w7
            & Hst' & Hl' & Hreport & _).
    destruct (started_unique w _ _ _ _ _ _ Hst Hst') as (-> & -> & ->).
    rewrite Hl in Hl'. injection Hl' as <- <-.
    exists w5. split; [exact Hreport|].
    pose proof (passes_report (fun _ => True) BrowserContext
                  (next_page w3 + k)
                  (environ (script w) (lit "REPO_TOKEN"))
                  (the (environ (script w) (lit "GITHUB_REPOSITORY")))
                  (environ (script w) (lit "TG_BOT_TOKEN"))
                  (environ (script w) (lit "TG_CHAT_ID")) w4) as Hpass.
    destruct Hpass as (d' & (Hs & _) & _);
      first [exact spares_any | intros; exact I | idtac].
    rewrite Hreport in Hs. cbn [snd] in Hs. congruence.
  - intros (w5 & Hreport & Hs5). split; [exact Hcookie|].
    exists Chromium, BrowserContext, w3, (next_page w3 + k), w4, w5.
    eexists _, _. split; [exact Hst|]. split; [exact Hl|].
    split; [exact Hreport|]. unfold healthy in Hh. split.
    + unfold close_browser. run. rewrite Hs5, Hh. reflexivity.
    + unfold stop_playwright. run. rewrite Hs5, Hh. reflexivity.
Qed.

Lemma healthy_run_exit_status_witness :
  fst (run (boot configured)) = 0%Z.
Proof.
  apply (healthy_run_exit_status (boot configured) 0 ZEABUR_DASHBOARD_URL).
  - intros k. reflexivity.
  - constructor.
  - reflexivity.
  - lia.
  - intros i Hi. lia.
  - reflexivity.
  - reflexivity.
  - intros _. split.
    + exists (lit "me"), (lit "site"). reflexivity.
    + eexists _, _. split; reflexivity.
Defined.

(** X18: with a browser that works, when none of the three navigations
    shows the dashboard the run ends with status 1.  It took no
    screenshot and sent nothing to GitHub: its only request is the one
    message about the failed login, where Telegram is configured. *)
Theorem exhausted_run_reports_once (w : World) :
  healthy w -> fresh_handles w ->
  truthy_opt (environ (script w) (lit "ZEABUR_COOKIE")) = true ->
  (forall i, i < 3 ->
     rejected (navigation (script w) (navs w + i)) = true) ->
  fst (run w) = 1%Z /\
  exists d,
    extends w (snd (main w)) d /\
    Forall (fun e => is_screenshot e = false) d /\
    requests_in d
    = if telegram_set (script w)
      then [message_request
              (the (environ (script w) (lit "TG_BOT_TOKEN")))
              (the (environ (script w) (lit "TG_CHAT_ID")))
              (text "❌ Cookie 登录失败" ++ nl
               ++ text "💡 请更新 ZEABUR_COOKIE")]
      else [].
Proof.
  intros Hh Hp Hcookie Hrej.
  destruct (healthy_started w Hh)
    as (w3 & Hst & Hs3 & Hn3 & Hq3 & Ho3 & Hr3 & He3).
  destruct (login_exhausted BrowserContext
              (the (environ (script w) (lit "ZEABUR_COOKIE"))) 2 w3)
    as (w4 & d0 & Hl & Hs4 & _).
  { unfold healthy in *. now rewrite Hs3. }
  { unfold fresh_handles in *. now rewrite Ho3, Hq3. }
  { rewrite Hs3, Hn3. exact Hrej. }
  split.
  - apply (main_of_session w Chromium BrowserContext w3 Hcookie Hst).
    intros w' H. apply session_returns in H.
    destruct H as (page & w1 & Hl' & _). rewrite Hl in Hl'. discriminate.
  - destruct (login_is_local BrowserContext
                (the (environ (script w) (lit "ZEABUR_COOKIE"))) 2 w3)
      as (d1 & (_ & Ht1 & _) & Hnone & Hshot1).
    rewrite Hl in Ht1. cbn [snd] in Ht1.
    destruct (login_failed_wire (environ (script w) (lit "TG_BOT_TOKEN"))
                (environ (script w) (lit "TG_CHAT_ID")) w4)
      as (d2 & Ht2 & Hshot2 & Hreq2).
    eexists. unfold extends in *. split; [|split].
    + rewrite (main_trace w _ _ _ Hcookie Hst).
      rewrite (guarded_after_failed_login w _ _ _ _ Hl), Ht2, Ht1, He3.
      rewrite <- !app_assoc. reflexivity.
    + repeat (apply Forall_app; split); auto; repeat constructor.
    + rewrite !requests_in_app, Hnone, Hreq2. cbn [requests_in app].
      rewrite app_nil_r. reflexivity.
Qed.

Lemma exhausted_run_reports_once_witness :
  fst (run (boot all_redirected)) = 1%Z /\
  exists d,
    extends (boot all_redirected) (snd (main (boot all_redirected))) d /\
    Forall (fun e => is_screenshot e = false) d /\
    requests_in d = [].
Proof.
  apply (exhausted_run_reports_once (boot all_redirected)).
  - intros k. reflexivity.
  - constructor.
  - reflexivity.
  - intros i _. reflexivity.
Defined.

(** *** The [except] clause *)

(** What the [except] clause of [main] does: one line, one message to
    Telegram where it is configured. *)
Lemma on_error_wire (tok cid : option pystr) (e : pystr) (w : World) :
  exists tail,
    extends w (snd (on_error tok cid e w))
      (EPrint (text "❌ 执行失败: " ++ e) :: tail) /\
    Forall (fun ev => is_screenshot ev = false) tail /\
    requests_in tail
    = if truthy_opt tok && truthy_opt cid
      then [message_request (the tok) (the cid)
              (text "❌ 执行失败: " ++ e)]
      else [].
Proof.
  unfold on_error, send_telegram_message, extends. cbv zeta.
  fold (message_request (the tok) (the cid) (text "❌ 执行失败: " ++ e)).
  crack.
  all: run; eexists; rewrite <- ?app_assoc; cbn [app].
  all: (split; [reflexivity|]); split; [repeat constructor | reflexivity].
Qed.

(** The events of the block of the [with] statement come after those of
    the world it starts in. *)
Lemma block_advance (w w1 : World) :
  exists d,
    advance w1
      (snd (try_finally
              (browser <- launch ;;
               context <- new_context browser ;;
               try_finally (guarded w context) (close_browser browser))
              stop_playwright w1)) d.
Proof.
  assert (H : passes (fun _ => True)
                (try_finally
                   (browser <- launch ;;
                    context <- new_context browser ;;
                    try_finally (guarded w context)
                      (close_browser browser))
                   stop_playwright) w1).
  { apply passes_try_finally;
      [|apply only_external; [exact I | reflexivity]].
    apply passes_bind.
    { unfold launch. apply only_bind; [|intros _; apply only_ret].
      apply only_external; [exact I | reflexivity]. }
    intros b w2 _ _. apply passes_bind.
    { unfold new_context. apply only_bind; [|intros _; apply only_ret].
      apply only_external; [exact I | reflexivity]. }
    intros c w3 _ _.
    apply passes_try_finally;
      [|apply only_external; [exact I | reflexivity]].
    apply passes_try_except.
    - apply passes_session; first [exact spares_any | intros; exact I].
    - intros msg w4 _ _.
      apply only_on_error; first [exact spares_any | intros; exact I]. }
  destruct H as (d & Ha & _). now exists d.
Qed.

(** X19: an exception raised in the [try] block of [main] ([sys.exit]
    is none) ends the run with status 1.  The [except] clause prints it
    and, where Telegram is configured, sends it in one message; then
    the browser is closed and Playwright stopped. *)
Theorem main_reports_exception (w : World) (b : Browser) (c : Context)
  (w3 w4 : World) (msg : pystr) :
  truthy_opt (environ (script w) (lit "ZEABUR_COOKIE")) = true ->
  started w b c w3 ->
  session c (environ (script w) (lit "ZEABUR_COOKIE"))
    (environ (script w) (lit "REPO_TOKEN"))
    (the (environ (script w) (lit "GITHUB_REPOSITORY")))
    (environ (script w) (lit "TG_BOT_TOKEN"))
    (environ (script w) (lit "TG_CHAT_ID")) w3
  = (Raise (Exception msg), w4) ->
  fst (run w) = 1%Z /\
  exists tail,
    extends w4 (snd (main w))
      (EPrint (text "❌ 执行失败: " ++ msg)
       :: tail ++ [ECloseBrowser; EStopPlaywright]) /\
    requests_in tail
    = if telegram_set (script w)
      then [message_request
              (the (environ (script w) (lit "TG_BOT_TOKEN")))
              (the (environ (script w) (lit "TG_CHAT_ID")))
              (text "❌ 执行失败: " ++ msg)]
      else [].
Proof.
  intros Hcookie Hst Hsession. split.
  - apply (main_of_session w b c w3 Hcookie Hst).
    intros w' H. rewrite Hsession in H. discriminate.
  - destruct (on_error_wire (environ (script w) (lit "TG_BOT_TOKEN"))
                (environ (script w) (lit "TG_CHAT_ID")) msg w4)
      as (tail & Ht & _ & Hreq).
    exists tail. split; [|exact Hreq]. unfold extends in *.
    rewrite (main_trace w b c w3 Hcookie Hst).
    unfold try_except. rewrite Hsession, Ht, <- app_assoc. reflexivity.
Qed.

Lemma main_reports_exception_witness : fst (run (boot refused)) = 1%Z.
Proof.
  pose (w3 := log ENewContext (tick_call (log ELaunch (tick_call
                (log EStartPlaywright (tick_call
                   (log (EPrint (text "🚀 启动浏览器..."))
                      (boot refused)))))))).
  pose (out := session BrowserContext (Some (lit "token=abc"))
                 (Some (lit "ghp")) (lit "me/site")
                 (Some (lit "42:bot")) (Some (lit "7")) w3).
  refine (proj1 (main_reports_exception (boot refused) Chromium
                   BrowserContext w3 (snd out)
                   (lit "500 Server Error: Internal Server Error for url: "
                    ++ key_url)
                   eq_refl _ _)).
  - eexists _, _. repeat split.
  - vm_compute. reflexivity.
Defined.

(** X20: a run starts Playwright exactly when [ZEABUR_COOKIE] is set
    and not empty.  Without it the run prints one line and ends with
    status 1: no browser, no request. *)
Theorem main_starts_browser_iff_cookie (w : World) :
  exists d,
    extends w (snd (main w)) d /\
    (In EStartPlaywright d <->
     truthy_opt (environ (script w) (lit "ZEABUR_COOKIE")) = true) /\
    (truthy_opt (environ (script w) (lit "ZEABUR_COOKIE")) = false ->
     d = [EPrint (text "❌ 错误: ZEABUR_COOKIE 未设置")] /\
     fst (run w) = 1%Z).
Proof.
  destruct (truthy_opt (environ (script w) (lit "ZEABUR_COOKIE")))
    eqn:Hcookie.
  - rewrite main_with_cookie by exact Hcookie. unfold with_.
    destruct (start_playwright (log (EPrint (text "🚀 启动浏览器...")) w))
      as [[[]|e] w1] eqn:Es.
    + rewrite (bind_run _ _ _ _ _ Es). cbv beta.
      destruct (block_advance w w1) as (d & _ & Ht & _).
      exists ([EPrint (text "🚀 启动浏览器..."); EStartPlaywright] ++ d).
      unfold extends. split; [|split].
      * rewrite Ht. unfold start_playwright, external in Es.
        cbv zeta in Es. settle.
        destruct (fault (script w) (calls w)); [discriminate|].
        injection Es as <-. settle. now rewrite <- !app_assoc.
      * split; [reflexivity|]. intros _. right. now left.
      * discriminate.
    + rewrite (bind_stops _ _ _ _ _ Es).
      exists [EPrint (text "🚀 启动浏览器..."); EStartPlaywright].
      unfold extends. split; [|split].
      * unfold start_playwright, external in Es.
        cbv zeta in Es. settle.
        destruct (fault (script w) (calls w)); [|discriminate].
        injection Es as <- <-. settle. now rewrite <- !app_assoc.
      * split; [reflexivity|]. intros _. right. now left.
      * discriminate.
  - unfold run. rewrite (main_without_cookie w Hcookie).
    exists [EPrint (text "❌ 错误: ZEABUR_COOKIE 未设置")].
    split; [reflexivity|]. split.
    + split; [|discriminate]. intros [H|[]]. discriminate.
    + intros _. split; reflexivity.
Qed.

End OutcomeLaws.
